(** * KacungErlan chat client: conversation assembly, upload pipeline and
      math-notation normalizer of [src/components/Chat.tsx].

    The development follows the component function by function.  JavaScript
    strings are sequences of UTF-16 code units, React state is an explicit
    record, and every handler is a function from the state (and the data the
    environment supplies) to the next state and the requests it issues. *)

From Stdlib Require Import List NArith ZArith Bool Ascii String Lia.
From Stdlib Require Decimal DecimalFacts DecimalNat.
Import ListNotations.

Set Implicit Arguments.

(** ** JavaScript strings *)

Module JS.

(** A string is the list of its UTF-16 code units. *)
Definition jsstring := list N.

Definition lit (s : string) : jsstring :=
  map N_of_ascii (list_ascii_of_string s).

Definition jsstring_eq_dec : forall a b : jsstring, {a = b} + {a <> b} :=
  list_eq_dec N.eq_dec.

Definition jseqb (a b : jsstring) : bool :=
  if jsstring_eq_dec a b then true else false.

(** [!s]: the empty string is the only falsy string. *)
Definition is_empty (s : jsstring) : bool :=
  match s with [] => true | _ => false end.

(** [a || b] on strings. *)
Definition or_else (a b : jsstring) : jsstring :=
  if is_empty a then b else a.

(** LineTerminator code points: LF, CR, LS, PS. *)
Definition is_line_terminator (c : N) : bool :=
  ((c =? 10) || (c =? 13) || (c =? 8232) || (c =? 8233))%N.

(** WhiteSpace and LineTerminator code points: the class [\s] of regular
    expressions and the characters removed by [String.prototype.trim]. *)
Definition is_space (c : N) : bool :=
  ((c =? 9) || (c =? 10) || (c =? 11) || (c =? 12) || (c =? 13) || (c =? 32)
   || (c =? 160) || (c =? 5760) || ((8192 <=? c) && (c <=? 8202))
   || (c =? 8232) || (c =? 8233) || (c =? 8239) || (c =? 8287)
   || (c =? 12288) || (c =? 65279))%N.

Fixpoint drop_space (s : jsstring) : jsstring :=
  match s with
  | c :: s' => if is_space c then drop_space s' else s
  | [] => []
  end.

(** [s.trim()] *)
Definition trim (s : jsstring) : jsstring :=
  rev (drop_space (rev (drop_space s))).

(** [s.startsWith(p)] *)
Fixpoint startsWith (s p : jsstring) : bool :=
  match p, s with
  | [], _ => true
  | a :: p', b :: s' => (a =? b)%N && startsWith s' p'
  | _ :: _, [] => false
  end.

(** [s.substring(n)] for [0 <= n]. *)
Definition substring_from (n : nat) (s : jsstring) : jsstring := skipn n s.

(** [parts.join(sep)] *)
Fixpoint join (sep : jsstring) (parts : list jsstring) : jsstring :=
  match parts with
  | [] => []
  | [p] => p
  | p :: rest => p ++ sep ++ join sep rest
  end.

(** Decimal rendering of a non-negative integer, as a template literal
    [${n}] prints it. *)
Fixpoint uint_chars (d : Decimal.uint) : jsstring :=
  match d with
  | Decimal.Nil => []
  | Decimal.D0 d => 48 :: uint_chars d
  | Decimal.D1 d => 49 :: uint_chars d
  | Decimal.D2 d => 50 :: uint_chars d
  | Decimal.D3 d => 51 :: uint_chars d
  | Decimal.D4 d => 52 :: uint_chars d
  | Decimal.D5 d => 53 :: uint_chars d
  | Decimal.D6 d => 54 :: uint_chars d
  | Decimal.D7 d => 55 :: uint_chars d
  | Decimal.D8 d => 56 :: uint_chars d
  | Decimal.D9 d => 57 :: uint_chars d
  end%N.

Definition number_to_string (n : nat) : jsstring := uint_chars (Nat.to_uint n).

Definition is_digit (c : N) : bool := ((48 <=? c) && (c <=? 57))%N.

(** [`${x}`] of an optional string: [undefined] prints as its name. *)
Definition show_optional (x : option jsstring) : jsstring :=
  match x with
  | Some s => s
  | None => lit "undefined"
  end.

Definition nl : jsstring := [10%N].
Definition dquote : jsstring := [34%N].
Definition backslash : N := 92%N.

End JS.

Import JS.

(** ** Regular expressions, as far as [formatMathContent] uses them *)

Module Regex.

(** Quantifiers only occur on one-character classes in the patterns of the
    component, so [Star] and [Plus] take the class directly. *)
Inductive regex : Type :=
| Chr (c : N)
| Cls (p : N -> bool)
| Star (greedy : bool) (p : N -> bool)
| Plus (greedy : bool) (p : N -> bool)
| Seq (r1 r2 : regex)
| Grp (r : regex).

(** A successful match: the unconsumed rest of the subject and the text of
    capture group 1, if the pattern has one. *)
Definition match_result : Type := jsstring * option jsstring.

Definition cont : Type := jsstring -> option jsstring -> option match_result.

(** [p*?] followed by [k]: the shortest repetition is tried first. *)
Fixpoint star_lazy (p : N -> bool) (s : jsstring)
    (k : jsstring -> option match_result) : option match_result :=
  match k s with
  | Some r => Some r
  | None =>
      match s with
      | c :: s' => if p c then star_lazy p s' k else None
      | [] => None
      end
  end.

(** [p*] followed by [k]: the longest repetition is tried first. *)
Fixpoint star_greedy (p : N -> bool) (s : jsstring)
    (k : jsstring -> option match_result) : option match_result :=
  match s with
  | c :: s' =>
      if p c then
        match star_greedy p s' k with
        | Some r => Some r
        | None => k s
        end
      else k s
  | [] => k s
  end.

Definition star (greedy : bool) := if greedy then star_greedy else star_lazy.

(** Backtracking matcher anchored at the head of [s]. *)
Fixpoint rmatch (r : regex) (s : jsstring) (cap : option jsstring) (k : cont)
    : option match_result :=
  match r with
  | Chr c =>
      match s with
      | x :: s' => if (x =? c)%N then k s' cap else None
      | [] => None
      end
  | Cls p =>
      match s with
      | x :: s' => if p x then k s' cap else None
      | [] => None
      end
  | Star g p => star g p s (fun t => k t cap)
  | Plus g p =>
      match s with
      | x :: s' => if p x then star g p s' (fun t => k t cap) else None
      | [] => None
      end
  | Seq r1 r2 => rmatch r1 s cap (fun t cap' => rmatch r2 t cap' k)
  | Grp r1 =>
      rmatch r1 s cap
        (fun t _ => k t (Some (firstn (List.length s - List.length t) s)))
  end.

Definition exec (r : regex) (s : jsstring) : option match_result :=
  rmatch r s None (fun t cap => Some (t, cap)).

(** Expansion of a replacement pattern: [$$] is a dollar sign, [$&] the
    matched text, [$1] the first capture group when the pattern has one. *)
Fixpoint expand (tpl matched : jsstring) (cap : option jsstring) : jsstring :=
  match tpl with
  | [] => []
  | c :: t =>
      if (c =? 36)%N then
        match t with
        | d :: t' =>
            if (d =? 36)%N then 36%N :: expand t' matched cap
            else if (d =? 38)%N then matched ++ expand t' matched cap
            else if (d =? 49)%N then
              match cap with
              | Some g => g ++ expand t' matched cap
              | None => c :: expand t matched cap
              end
            else c :: expand t matched cap
        | [] => [c]
        end
      else c :: expand t matched cap
  end.

(** [s.replace(/r/g, tpl)]: matches are searched left to right, each search
    resuming where the previous match ended.  [skip] counts the characters of
    the current match that are still to be passed over. *)
Fixpoint replace_from (r : regex) (tpl : jsstring) (s : jsstring) (skip : nat)
    : jsstring :=
  match s with
  | [] =>
      match skip, exec r [] with
      | O, Some (_, cap) => expand tpl [] cap
      | _, _ => []
      end
  | c :: s' =>
      match skip with
      | S n => replace_from r tpl s' n
      | O =>
          match exec r s with
          | Some (rest, cap) =>
              let n := List.length s - List.length rest in
              expand tpl (firstn n s) cap ++
                match n with
                | O => c :: replace_from r tpl s' 0
                | S m => replace_from r tpl s' m
                end
          | None => c :: replace_from r tpl s' 0
          end
      end
  end.

Definition replace_all (r : regex) (tpl : jsstring) (s : jsstring) : jsstring :=
  replace_from r tpl s 0.

(** Building blocks for writing the patterns down. *)
Fixpoint seqs (r : regex) (rs : list regex) : regex :=
  match rs with
  | [] => r
  | r' :: rs' => Seq r (seqs r' rs')
  end.

Definition dot (c : N) : bool := negb (is_line_terminator c).
Definition any (c : N) : bool := true.
Definition alpha (c : N) : bool :=
  (((97 <=? c) && (c <=? 122)) || ((65 <=? c) && (c <=? 90)))%N.

End Regex.

Import Regex.

(** ** The math-notation normalizer ([formatMathContent]) *)

Module MathFormat.

Local Open Scope N_scope.

(** [/\\\((.*?)\\\)/g] *)
Definition re_inline : regex :=
  seqs (Chr 92) [Chr 40; Grp (Star false dot); Chr 92; Chr 41].

(** [/\\\[([\s\S]*?)\\\]/g] *)
Definition re_block : regex :=
  seqs (Chr 92) [Chr 91; Grp (Star false any); Chr 92; Chr 93].

(** [/\[\s*(\\[a-zA-Z]+[\s\S]*?)\s*\]/g] *)
Definition re_bare : regex :=
  seqs (Chr 91)
    [Star true is_space;
     Grp (seqs (Chr 92) [Plus true alpha; Star false any]);
     Star true is_space; Chr 93].

(** [/\\partia l/g] *)
Definition re_partial : regex :=
  seqs (Chr 92) [Chr 112; Chr 97; Chr 114; Chr 116; Chr 105; Chr 97;
                 Chr 32; Chr 108].

(** [/\\delt a/g] *)
Definition re_delta : regex :=
  seqs (Chr 92) [Chr 100; Chr 101; Chr 108; Chr 116; Chr 32; Chr 97].

(** [/\\phi\s+/g] *)
Definition re_phi : regex :=
  seqs (Chr 92) [Chr 112; Chr 104; Chr 105; Plus true is_space].

(** [/\\frac\s+{/g] *)
Definition re_frac : regex :=
  seqs (Chr 92) [Chr 102; Chr 114; Chr 97; Chr 99; Plus true is_space;
                 Chr 123].

(** The three delimiter rewrites, in source order. *)
Definition delimiter_rewrites (content : jsstring) : jsstring :=
  replace_all re_bare (lit "$$$$$1$$$$")
    (replace_all re_block (lit "$$$$$1$$$$")
       (replace_all re_inline (lit "$$$1$$") content)).

(** The four typo patches, in source order. *)
Definition typo_patches (content : jsstring) : jsstring :=
  replace_all re_frac (lit "\frac{")
    (replace_all re_phi (lit "\phi ")
       (replace_all re_delta (lit "\delta")
          (replace_all re_partial (lit "\partial") content))).

Definition formatMathContent (content : jsstring) : jsstring :=
  if is_empty content then content
  else typo_patches (delimiter_rewrites content).

End MathFormat.

Import MathFormat.

(** ** Text between backslashes *)

Module Segments.

Local Open Scope N_scope.

(** The text holds an opening delimiter of the rewrites: an escaped
    parenthesis, or a square bracket, escaped or not. *)
Fixpoint hasOpeningDelimiter (s : jsstring) : bool :=
  match s with
  | [] => false
  | c :: s' =>
      (c =? 91)
      || ((c =? 92) && match s' with d :: _ => d =? 40 | [] => false end)
      || hasOpeningDelimiter s'
  end.









End Segments.

Import Segments.

(** ** Data model ([lib/types]) *)

Module Types.

Inductive Role : Type := user | assistant | system.

(** [ImageData]: every field but [url] is optional. *)
Record ImageData : Type := mkImageData {
  id : option jsstring;
  url : jsstring;
  description : option jsstring;
  processed : option bool;
  progress : option Z;
  status : option jsstring;
  isUploading : option bool
}.

Record Message : Type := mkMessage {
  role : Role;
  content : jsstring;
  images : option (list ImageData)
}.

(** The object literal [{role, content}] built by the sanitizing map. *)
Record ApiMessage : Type := mkApiMessage {
  api_role : Role;
  api_content : jsstring
}.

Inductive ModelChoice : Type := mistral | gemma.

(** The two attributes of a [File] the upload handler reads. *)
Record File : Type := mkFile {
  file_type : jsstring;
  file_size : Z
}.

(** [Partial<ImageData>]: [None] is a key that is not in the object literal,
    [Some v] a key that is written, also when [v] is [undefined]. *)
Record ImageUpdates : Type := mkImageUpdates {
  u_id : option (option jsstring);
  u_url : option jsstring;
  u_description : option (option jsstring);
  u_processed : option (option bool);
  u_progress : option (option Z);
  u_status : option (option jsstring);
  u_isUploading : option (option bool)
}.

Definition no_updates : ImageUpdates :=
  mkImageUpdates None None None None None None None.

Definition override {A : Type} (old : A) (new : option A) : A :=
  match new with
  | Some v => v
  | None => old
  end.

(** [{ ...img, ...updates }] *)
Definition spread (img : ImageData) (updates : ImageUpdates) : ImageData :=
  {| id := override (id img) (u_id updates);
     url := override (url img) (u_url updates);
     description := override (description img) (u_description updates);
     processed := override (processed img) (u_processed updates);
     progress := override (progress img) (u_progress updates);
     status := override (status img) (u_status updates);
     isUploading := override (isUploading img) (u_isUploading updates) |}.

(** Truthiness of an optional boolean field. *)
Definition truthy (b : option bool) : bool :=
  match b with
  | Some true => true
  | _ => false
  end.

Definition role_name (r : Role) : jsstring :=
  match r with
  | user => lit "user"
  | assistant => lit "assistant"
  | system => lit "system"
  end.

(** The own enumerable properties of a transmitted message, in the order
    [JSON.stringify] writes them. *)
Definition wire_fields (m : ApiMessage) : list (jsstring * jsstring) :=
  [(lit "role", role_name (api_role m)); (lit "content", api_content m)].

End Types.

Import Types.

(** ** Context assembly (the body of [handleSubmit] up to the request) *)

Module Context.

(** [array.map((x, index) => f x index)], counting from [index]. *)
Fixpoint map_index {A B : Type} (f : A -> nat -> B) (index : nat) (l : list A)
    : list B :=
  match l with
  | [] => []
  | x :: l' => f x index :: map_index f (S index) l'
  end.

Definition indent : jsstring := lit "        ".

(** The persona prompt: sixteen lines of a template literal, each but the
    first carrying the eight blanks of the source indentation. *)
Definition baseSystemMessage : Message :=
  {| role := system;
     content :=
       join (nl ++ indent)
         [ lit "Nama kamu adalah " ++ dquote ++ lit "Kacung" ++ dquote
             ++ lit ". Kamu adalah asisten pribadi yang ramah.";
           lit "ATURAN PENTING:";
           lit "- JANGAN PERNAH memberitahu informasi tentang model AI kamu (seperti Mistral, Gemma, dll).";
           lit "- Jangan pernah sebutkan bahwa kamu adalah model AI.";
           lit "- Jika ditanya siapa kamu atau model apa kamu, jawablah bahwa kamu adalah Kacung.";
           [];
           lit "IMPORTANT MATH RULES:";
           lit "- Use standard LaTeX for all mathematical formulas. ";
           lit "- Use $...$ for inline math and $$...$$ for block math. ";
           lit "- NEVER use \( \) or \[ \] or bare brackets [ ].";
           lit "- DO NOT put spaces inside LaTeX commands (e.g., use \partial not \partia l).";
           lit "- If you see a complex formula, ALWAYS wrap it in $$...$$.";
           [];
           lit "GENERAL RULES:";
           lit "- ALWAYS respond in the same language as the user.";
           lit "- If just greeted, respond naturally without excessive capability listing." ];
     images := None |}.

(** [`[IMAGE ${index + 1} ANALYSIS]:\n${img.description}`] *)
Definition imageSection (img : ImageData) (index : nat) : jsstring :=
  lit "[IMAGE " ++ number_to_string (index + 1) ++ lit " ANALYSIS]:" ++ nl
    ++ show_optional (description img).

(** [currentImages.map(...).filter(Boolean).join('\n\n')] *)
Definition imageDescriptions (currentImages : list ImageData) : jsstring :=
  join (nl ++ nl)
    (filter (fun text => negb (is_empty text))
       (map_index imageSection 0 currentImages)).

(** The analysis message of the outbound context. *)
Definition analysisMessage (currentImages : list ImageData) : Message :=
  {| role := user;
     content :=
       lit "[CONTEXT: IMAGE ANALYSIS] The user has provided "
         ++ number_to_string (List.length currentImages)
         ++ lit " image(s). Here is the detailed analysis:" ++ nl ++ nl
         ++ imageDescriptions currentImages ++ nl ++ nl
         ++ lit "(Refer to these as Image 1, Image 2, etc. Use this context to answer the user's questions.)";
     images := None |}.

(** The analysis message re-created for the message log on success. *)
Definition analysisMsg (currentImages : list ImageData) : Message :=
  {| role := user;
     content :=
       lit "[CONTEXT: IMAGE ANALYSIS] The user has provided images. Here is the detailed analysis:"
         ++ nl ++ imageDescriptions currentImages ++ nl ++ nl
         ++ lit "(Use this information to answer the user's questions about the images.)";
     images := None |}.

Definition userMessageForDisplay (currentInput : jsstring)
    (currentImages : list ImageData) : Message :=
  {| role := user; content := currentInput; images := Some currentImages |}.

Definition userMessageForApi (currentInput : jsstring) : Message :=
  {| role := user; content := currentInput; images := None |}.

Definition newMessagesToAdd (currentInput : jsstring)
    (currentImages : list ImageData) : list Message :=
  (if 0 <? List.length currentImages then [analysisMessage currentImages]
   else [])
  ++ [userMessageForApi currentInput].

(** [msg => ({ role: msg.role, content: msg.content })] *)
Definition sanitize (msg : Message) : ApiMessage :=
  {| api_role := role msg; api_content := content msg |}.

(** The array the sanitizing map runs over. *)
Definition contextSource (messages : list Message)
    (internalSummary : option Message) (currentInput : jsstring)
    (currentImages : list ImageData) : list Message :=
  [baseSystemMessage]
  ++ match internalSummary with
     | Some summary => [summary]
     | None => []
     end
  ++ messages
  ++ newMessagesToAdd currentInput currentImages.

Definition finalContext (messages : list Message)
    (internalSummary : option Message) (currentInput : jsstring)
    (currentImages : list ImageData) : list ApiMessage :=
  map sanitize
    (contextSource messages internalSummary currentInput currentImages).

End Context.

Import Context.

(** ** The component state and its handlers *)

Module Chat.

Local Open Scope Z_scope.

(** Where a suspended [handleImageUpload] call stands. *)
Inductive UploadPhase : Type :=
| Reading      (* waiting for the FileReader *)
| Analyzing    (* waiting for [fetch('/api/image')], crawl interval running *)
| Settling     (* complete, the 2000 ms feedback reset is scheduled *)
| Leaked       (* fetch rejected: the crawl interval was never cleared *)
| Finished.

Record UploadTask : Type := mkUploadTask {
  imageId : jsstring;
  userPrompt : jsstring;   (* [input] as the call's closure captured it *)
  phase : UploadPhase
}.

(** The React state of the component, followed by what lives outside of it:
    the suspended [handleSubmit] call with its captured [currentImages], the
    timers, and the suspended upload calls.  [hasConversationSummary],
    [isSummarizing] and [isDropdownOpen] are left out: no handler reads
    them. *)
Record State : Type := mkState {
  messages : list Message;
  input : jsstring;
  isLoading : bool;
  error : option jsstring;
  selectedModel : ModelChoice;
  internalSummary : option Message;
  uploadedImages : list ImageData;
  aiResponseProgress : Z;
  aiResponseStatus : jsstring;
  pendingSubmit : option (list ImageData);
  progressIntervals : nat;
  progressResets : nat;
  uploads : list UploadTask
}.

Definition initial : State :=
  {| messages := []; input := []; isLoading := false; error := None;
     selectedModel := mistral; internalSummary := None; uploadedImages := [];
     aiResponseProgress := 0; aiResponseStatus := [];
     pendingSubmit := None; progressIntervals := 0%nat;
     progressResets := 0%nat; uploads := [] |}.

(** State setters. *)
Definition setMessages (v : list Message) (s : State) : State :=
  mkState v (input s) (isLoading s) (error s) (selectedModel s)
    (internalSummary s) (uploadedImages s) (aiResponseProgress s)
    (aiResponseStatus s) (pendingSubmit s) (progressIntervals s)
    (progressResets s) (uploads s).
Definition setInput (v : jsstring) (s : State) : State :=
  mkState (messages s) v (isLoading s) (error s) (selectedModel s)
    (internalSummary s) (uploadedImages s) (aiResponseProgress s)
    (aiResponseStatus s) (pendingSubmit s) (progressIntervals s)
    (progressResets s) (uploads s).
Definition setIsLoading (v : bool) (s : State) : State :=
  mkState (messages s) (input s) v (error s) (selectedModel s)
    (internalSummary s) (uploadedImages s) (aiResponseProgress s)
    (aiResponseStatus s) (pendingSubmit s) (progressIntervals s)
    (progressResets s) (uploads s).
Definition setError (v : option jsstring) (s : State) : State :=
  mkState (messages s) (input s) (isLoading s) v (selectedModel s)
    (internalSummary s) (uploadedImages s) (aiResponseProgress s)
    (aiResponseStatus s) (pendingSubmit s) (progressIntervals s)
    (progressResets s) (uploads s).
Definition setSelectedModel (v : ModelChoice) (s : State) : State :=
  mkState (messages s) (input s) (isLoading s) (error s) v
    (internalSummary s) (uploadedImages s) (aiResponseProgress s)
    (aiResponseStatus s) (pendingSubmit s) (progressIntervals s)
    (progressResets s) (uploads s).
Definition setInternalSummary (v : option Message) (s : State) : State :=
  mkState (messages s) (input s) (isLoading s) (error s) (selectedModel s)
    v (uploadedImages s) (aiResponseProgress s)
    (aiResponseStatus s) (pendingSubmit s) (progressIntervals s)
    (progressResets s) (uploads s).
Definition setUploadedImages (v : list ImageData) (s : State) : State :=
  mkState (messages s) (input s) (isLoading s) (error s) (selectedModel s)
    (internalSummary s) v (aiResponseProgress s)
    (aiResponseStatus s) (pendingSubmit s) (progressIntervals s)
    (progressResets s) (uploads s).
Definition setAiResponseProgress (v : Z) (s : State) : State :=
  mkState (messages s) (input s) (isLoading s) (error s) (selectedModel s)
    (internalSummary s) (uploadedImages s) v
    (aiResponseStatus s) (pendingSubmit s) (progressIntervals s)
    (progressResets s) (uploads s).
Definition setAiResponseStatus (v : jsstring) (s : State) : State :=
  mkState (messages s) (input s) (isLoading s) (error s) (selectedModel s)
    (internalSummary s) (uploadedImages s) (aiResponseProgress s)
    v (pendingSubmit s) (progressIntervals s)
    (progressResets s) (uploads s).
Definition setPendingSubmit (v : option (list ImageData)) (s : State) : State :=
  mkState (messages s) (input s) (isLoading s) (error s) (selectedModel s)
    (internalSummary s) (uploadedImages s) (aiResponseProgress s)
    (aiResponseStatus s) v (progressIntervals s)
    (progressResets s) (uploads s).
Definition setProgressIntervals (v : nat) (s : State) : State :=
  mkState (messages s) (input s) (isLoading s) (error s) (selectedModel s)
    (internalSummary s) (uploadedImages s) (aiResponseProgress s)
    (aiResponseStatus s) (pendingSubmit s) v
    (progressResets s) (uploads s).
Definition setProgressResets (v : nat) (s : State) : State :=
  mkState (messages s) (input s) (isLoading s) (error s) (selectedModel s)
    (internalSummary s) (uploadedImages s) (aiResponseProgress s)
    (aiResponseStatus s) (pendingSubmit s) (progressIntervals s)
    v (uploads s).
Definition setUploads (v : list UploadTask) (s : State) : State :=
  mkState (messages s) (input s) (isLoading s) (error s) (selectedModel s)
    (internalSummary s) (uploadedImages s) (aiResponseProgress s)
    (aiResponseStatus s) (pendingSubmit s) (progressIntervals s)
    (progressResets s) v.

(** What a handler hands to the environment. *)
Inductive Effect : Type :=
| FetchChat (context : list ApiMessage) (model : ModelChoice)
| ReadFile (file : File)
| FetchImage (imageUrl userPrompt : jsstring).

(** What the completion service can answer: a 2xx body with [message], a
    non-2xx JSON body whose [error] may be missing, or no answer at all (the
    fetch promise rejects with an [Error] carrying [message]). *)
Inductive ChatReply : Type :=
| ReplyOk (message : Message)
| ReplyError (data_error : option jsstring)
| ReplyRejected (message : jsstring).

(** What the vision route can answer.  [ImageOk] carries
    [JSON.stringify(processData.description)], which is [undefined] when the
    body has no description; [ImageError] the parsed [error], if any, and
    the HTTP status. *)
Inductive ImageReply : Type :=
| ImageOk (serialized : option jsstring)
| ImageError (data_error : option jsstring) (http_status : nat)
| ImageRejected (message : jsstring).

(** [uploadedImages.some(img => img.isUploading)] *)
Definition isProcessingImage (s : State) : bool :=
  existsb (fun img => truthy (isUploading img)) (uploadedImages s).

(** The guard of [handleSubmit] (and the [disabled] of the send button). *)
Definition submitBlocked (s : State) : bool :=
  (is_empty (trim (input s)) && (List.length (uploadedImages s) =? 0)%nat)
  || isLoading s || isProcessingImage s.

(** [handleSubmit], from the form event to [await fetch('/api/chat')]. *)
Definition handleSubmit (s : State) : State * list Effect :=
  if submitBlocked s then (s, [])
  else
    let currentInput := trim (input s) in
    let currentImages := uploadedImages s in
    let context :=
      finalContext (messages s) (internalSummary s) currentInput currentImages in
    let s1 := setInput [] s in
    let s2 := setUploadedImages [] s1 in
    let s3 :=
      setMessages
        (messages s2 ++ [userMessageForDisplay currentInput currentImages]) s2 in
    let s4 := setIsLoading true s3 in
    let s5 := setAiResponseProgress 0 s4 in
    let s6 := setError None s5 in
    let s7 := setAiResponseProgress 10 s6 in
    let s8 := setAiResponseStatus (lit "Preparing context...") s7 in
    let s9 := setAiResponseProgress 25 s8 in
    let s10 := setAiResponseStatus (lit "Sending request to AI...") s9 in
    let s11 := setProgressIntervals (S (progressIntervals s10)) s10 in
    (setPendingSubmit (Some currentImages) s11,
     [FetchChat context (selectedModel s)]).

(** The callback of the 500 ms progress interval. *)
Definition crawl (prev : Z) : Z :=
  if prev >=? 85 then prev else prev + 1.

(** The functional update of the message log on success. *)
Definition applyResponse (prev : list Message) (currentImages : list ImageData)
    (assistantMessage : Message) : list Message :=
  let newHistory :=
    if (0 <? List.length currentImages)%nat then
      match rev prev with
      | lastMsg :: before => rev before ++ [analysisMsg currentImages; lastMsg]
      | [] => []
      end
    else prev in
  newHistory ++ [assistantMessage].

(** [handleSubmit] from the settling of the fetch promise to its end. *)
Definition resumeSubmit (s : State) (reply : ChatReply) : State :=
  match pendingSubmit s with
  | None => s
  | Some currentImages =>
      let s := setPendingSubmit None s in
      match reply with
      | ReplyRejected message =>
          (* the rejection skips [clearInterval] *)
          let s := setError (Some message) s in
          let s := setAiResponseProgress 0 s in
          setIsLoading false s
      | ReplyError data_error =>
          let s := setProgressIntervals (pred (progressIntervals s)) s in
          let s := setAiResponseProgress 85 s in
          let s := setAiResponseStatus (lit "Processing AI response...") s in
          let thrown :=
            or_else (match data_error with Some e => e | None => [] end)
                    (lit "Failed to get response") in
          let s := setError (Some thrown) s in
          let s := setAiResponseProgress 0 s in
          setIsLoading false s
      | ReplyOk assistantMessage =>
          let s := setProgressIntervals (pred (progressIntervals s)) s in
          let s := setAiResponseProgress 85 s in
          let s := setAiResponseStatus (lit "Processing AI response...") s in
          let s := setAiResponseProgress 100 s in
          let s := setAiResponseStatus (lit "Response received") s in
          let s :=
            setMessages
              (applyResponse (messages s) currentImages assistantMessage) s in
          let s := setProgressResets (S (progressResets s)) s in
          setIsLoading false s
      end
  end.

(** The interval callback fires, if an interval is alive. *)
Definition progressTick (s : State) : State :=
  match progressIntervals s with
  | O => s
  | S _ => setAiResponseProgress (crawl (aiResponseProgress s)) s
  end.

(** A scheduled 1000 ms reset fires. *)
Definition progressReset (s : State) : State :=
  match progressResets s with
  | O => s
  | S n =>
      let s := setProgressResets n s in
      let s := setAiResponseProgress 0 s in
      setAiResponseStatus [] s
  end.

Definition clearChat (s : State) : State :=
  let s := setMessages [] s in
  let s := setInternalSummary None s in
  let s := setUploadedImages [] s in
  let s := setAiResponseProgress 0 s in
  setError None s.

(** *** The upload pipeline ([handleImageUpload]) *)

(** [img.id === imageId] *)
Definition hasId (imageId : jsstring) (img : ImageData) : bool :=
  match id img with
  | Some i => jseqb i imageId
  | None => false
  end.

(** [prev.map(img => img.id === imageId ? { ...img, ...updates } : img)] *)
Definition updateImages (imageId : jsstring) (updates : ImageUpdates)
    (prev : list ImageData) : list ImageData :=
  map (fun img => if hasId imageId img then spread img updates else img) prev.

Definition updateImage (imageId : jsstring) (updates : ImageUpdates)
    (s : State) : State :=
  setUploadedImages (updateImages imageId updates (uploadedImages s)) s.

Definition feedback (percent : Z) (text : string) : ImageUpdates :=
  mkImageUpdates None None None None (Some (Some percent))
    (Some (Some (lit text))) None.

(** [handleImageUpload], from the call to the start of the FileReader.
    [random36] is the text of [Math.random().toString(36)].  The guard
    [if (!file) return] has no counterpart: a [File] is always given. *)
Definition handleImageUpload (file : File) (random36 : jsstring) (s : State)
    : State * list Effect :=
  if negb (startsWith (file_type file) (lit "image/")) then
    (setError (Some (lit "Please upload a valid image file")) s, [])
  else if file_size file >? 10 * 1024 * 1024 then
    (setError (Some (lit "Image size must be less than 10MB")) s, [])
  else
    let imageId := substring_from 7 random36 in
    let initialImageData :=
      {| id := Some imageId; url := []; description := None;
         processed := None; progress := Some 0;
         status := Some (lit "Starting..."); isUploading := Some true |} in
    let s1 := setUploadedImages (uploadedImages s ++ [initialImageData]) s in
    let s2 := updateImage imageId (feedback 15 "Converting...") s1 in
    let s3 :=
      setUploads (uploads s2 ++ [mkUploadTask imageId (input s) Reading]) s2 in
    (s3, [ReadFile file]).

(** The callback of the 300 ms interval of one upload. *)
Definition crawlImage (imageId : jsstring) (img : ImageData) : ImageData :=
  match progress img with
  | Some p =>
      if hasId imageId img && (p <? 80) then
        spread img
          (mkImageUpdates None None None None (Some (Some (p + 1))) None None)
      else img
  | None => img
  end.

(** [prev.filter(img => img.id !== imageId)] *)
Definition dropImage (imageId : jsstring) (s : State) : State :=
  setUploadedImages
    (filter (fun img => negb (hasId imageId img)) (uploadedImages s)) s.

Fixpoint setPhaseAt (n : nat) (p : UploadPhase) (tasks : list UploadTask)
    : list UploadTask :=
  match tasks, n with
  | [], _ => []
  | t :: rest, O => mkUploadTask (imageId t) (userPrompt t) p :: rest
  | t :: rest, S m => t :: setPhaseAt m p rest
  end.

Definition setPhase (n : nat) (p : UploadPhase) (s : State) : State :=
  setUploads (setPhaseAt n p (uploads s)) s.

(** What can wake a suspended upload call. *)
Inductive UploadEvent : Type :=
| FileLoaded (dataUrl : jsstring)
| FileFailed
| CrawlFired
| ImageReplied (reply : ImageReply)
| SettleFired.

(** The [catch] block of [handleImageUpload]. *)
Definition failUpload (imageId message : jsstring) (s : State) : State :=
  dropImage imageId (setError (Some message) s).

(** [handleImageUpload] after its first suspension, for the [n]-th call. *)
Definition resumeUpload (n : nat) (ev : UploadEvent) (s : State)
    : State * list Effect :=
  match nth_error (uploads s) n with
  | None => (s, [])
  | Some task =>
      let me := imageId task in
      match phase task, ev with
      | Reading, FileLoaded dataUrl =>
          let s1 :=
            updateImage me
              (mkImageUpdates None (Some dataUrl) None None (Some (Some 30))
                 (Some (Some (lit "Processing data..."))) None) s in
          let s2 := updateImage me (feedback 40 "Analyzing Image...") s1 in
          (setPhase n Analyzing s2,
           [FetchImage dataUrl (trim (userPrompt task))])
      | Reading, FileFailed =>
          (* the reader rejects with an event, not an [Error] *)
          (setPhase n Finished
             (failUpload me (lit "Failed to process image") s), [])
      | Analyzing, CrawlFired
      | Leaked, CrawlFired =>
          (setUploadedImages (map (crawlImage me) (uploadedImages s)) s, [])
      | Analyzing, ImageReplied (ImageOk serialized) =>
          let s1 := updateImage me (feedback 90 "Finalizing...") s in
          let s2 :=
            updateImage me
              (mkImageUpdates None None (Some serialized) (Some (Some true))
                 (Some (Some 100)) (Some (Some (lit "Complete")))
                 (Some (Some false))) s1 in
          (setPhase n Settling s2, [])
      | Analyzing, ImageReplied (ImageError data_error http_status) =>
          let errorMsg :=
            or_else (match data_error with Some e => e | None => [] end)
                    (lit "Server error: " ++ number_to_string http_status) in
          (setPhase n Finished (failUpload me errorMsg s), [])
      | Analyzing, ImageReplied (ImageRejected message) =>
          (* the rejection skips [clearInterval] *)
          (setPhase n Leaked (failUpload me message s), [])
      | Settling, SettleFired =>
          (setPhase n Finished
             (updateImage me
                (mkImageUpdates None None None None (Some None) (Some None)
                   None) s), [])
      | _, _ => (s, [])
      end
  end.

(** [prev.filter((_, i) => i !== index)] *)
Fixpoint removeAt {A : Type} (index : nat) (l : list A) : list A :=
  match l, index with
  | [], _ => []
  | _ :: rest, O => rest
  | x :: rest, S i => x :: removeAt i rest
  end.

Definition removeImage (index : nat) (s : State) : State :=
  setUploadedImages (removeAt index (uploadedImages s)) s.

(** *** The component as a transition system *)

Inductive Event : Type :=
| InputChanged (value : jsstring)
| ModelSelected (model : ModelChoice)
| FormSubmitted
| ChatReplied (reply : ChatReply)
| ProgressTicked
| ProgressResetFired
| ClearClicked
| FileChosen (file : File) (random36 : jsstring)
| RemoveClicked (index : nat)
| UploadResumed (n : nat) (ev : UploadEvent).

(** One event of the browser.  The text input (with its paste handler), the
    file input and the clear button carry [disabled={isLoading}]; the remove
    button of an attachment is rendered only when it is not uploading.  Of
    the model selector only the button that opens the list is disabled while
    loading: an entry of a list that is already open sets the model whenever
    it is clicked. *)
Definition step (s : State) (e : Event) : State * list Effect :=
  match e with
  | InputChanged value =>
      if isLoading s then (s, []) else (setInput value s, [])
  | ModelSelected model => (setSelectedModel model s, [])
  | FormSubmitted => handleSubmit s
  | ChatReplied reply => (resumeSubmit s reply, [])
  | ProgressTicked => (progressTick s, [])
  | ProgressResetFired => (progressReset s, [])
  | ClearClicked =>
      if isLoading s then (s, []) else (clearChat s, [])
  | FileChosen file random36 =>
      if isLoading s then (s, []) else handleImageUpload file random36 s
  | RemoveClicked index =>
      match nth_error (uploadedImages s) index with
      | Some img =>
          if truthy (isUploading img) then (s, [])
          else (removeImage index s, [])
      | None => (s, [])
      end
  | UploadResumed n ev => resumeUpload n ev s
  end.

Definition next (s : State) (e : Event) : State := fst (step s e).

(** The state after a sequence of events. *)
Definition run (s : State) (events : list Event) : State :=
  fold_left next events s.

(** Every request issued along a sequence of events, in order. *)
Fixpoint requests (s : State) (events : list Event) : list Effect :=
  match events with
  | [] => []
  | e :: rest => snd (step s e) ++ requests (next s e) rest
  end.

Definition reachable (s : State) : Prop :=
  exists events, run initial events = s.

End Chat.

Import Chat.

(** ** A session used as the running example *)

Module Scenario.

Local Open Scope Z_scope.

Definition photo : File := mkFile (lit "image/png") 2048.

(** One image uploaded and described, and a question typed. *)
Definition ready : State :=
  run initial
    [ FileChosen photo (lit "0.4fzyo82mvyr");
      UploadResumed 0 (FileLoaded (lit "data:image/png;base64,iVBORw0KGgo="));
      UploadResumed 0
        (ImageReplied (ImageOk (Some (dquote ++ lit "a red car" ++ dquote))));
      InputChanged (lit " What is this? ") ].

Definition waiting : State := next ready FormSubmitted.

Definition failed : State :=
  next waiting (ChatReplied (ReplyError (Some (lit "rate limited")))).

Definition reply : Message := mkMessage assistant (lit "A red car.") None.

Definition answered : State := next waiting (ChatReplied (ReplyOk reply)).

(** Two uploads whose random numbers are 0.5 and 0.25: in base 36 these
    print as "0.i" and "0.9". *)
Definition twins : State :=
  run initial [FileChosen photo (lit "0.i"); FileChosen photo (lit "0.9")].

(** Two uploads whose ids are "82mvyr" and "1q7d2a". *)
Definition pair : State :=
  run initial
    [ FileChosen photo (lit "0.4fzyo82mvyr");
      FileChosen photo (lit "0.k3b9x1q7d2a") ].

(** What [nth] falls back on. *)
Definition blank : ImageData := mkImageData None [] None None None None None.

Definition archive : File := mkFile (lit "application/zip") 2048.

Definition poster : File := mkFile (lit "image/jpeg") (10 * 1024 * 1024 + 1).

End Scenario.

(** ** Vocabulary of the properties *)

Module Props.

Local Open Scope Z_scope.

(** The outbound analysis text, spelled out around its sections. *)
Definition outboundAnalysisText (count : nat) (sections : list jsstring)
    : jsstring :=
  lit "[CONTEXT: IMAGE ANALYSIS] The user has provided "
    ++ number_to_string count
    ++ lit " image(s). Here is the detailed analysis:" ++ nl ++ nl
    ++ join (nl ++ nl) sections ++ nl ++ nl
    ++ lit "(Refer to these as Image 1, Image 2, etc. Use this context to answer the user's questions.)".

(** Events other than the answer of the completion service. *)
Definition quiet (e : Event) : bool :=
  match e with
  | ChatReplied _ => false
  | _ => true
  end.

(** Events other than a file arriving at the upload handler. *)
Definition noUpload (e : Event) : bool :=
  match e with
  | FileChosen _ _ => false
  | _ => true
  end.

(** A request is in flight: [log] is the message log, [imgs] the images the
    suspended [handleSubmit] captured. *)
Record awaiting (log : list Message) (imgs : list ImageData) (s : State)
    : Prop := mkAwaiting {
  aw_loading : isLoading s = true;
  aw_pending : pendingSubmit s = Some imgs;
  aw_log : messages s = log;
  aw_input : input s = [];
  aw_staged : uploadedImages s = [];
  aw_progress : aiResponseProgress s <= 85
}.

(** A synthesized analysis message, recognised the way the render filter
    recognises it. *)
Definition isAnalysis (m : Message) : bool :=
  match role m with
  | user => startsWith (content m) (lit "[CONTEXT: IMAGE ANALYSIS]")
  | _ => false
  end.

(** A user message of a turn submitted with at least one image. *)
Definition isImageTurn (m : Message) : bool :=
  match role m, images m with
  | user, Some (_ :: _) => true
  | _, _ => false
  end.

(** Every image turn of the log directly follows an analysis message. *)
Definition analysisPrecedes (log : list Message) : Prop :=
  forall before m after,
    log = before ++ m :: after ->
    isImageTurn m = true ->
    exists before' a, before = before' ++ [a] /\ isAnalysis a = true.

(** The pattern cannot match unless the subject starts with [c]. *)
Fixpoint startsWithChr (c : N) (r : regex) : bool :=
  match r with
  | Chr c' => (c' =? c)%N
  | Seq r1 _ => startsWithChr c r1
  | Grp r1 => startsWithChr c r1
  | _ => false
  end.

End Props.

Import Props.

(** ** What the component derives from its state for rendering *)

Module View.

Definition isSystem (r : Role) : bool :=
  match r with
  | system => true
  | _ => false
  end.

(** The predicate of [messages.filter(...)] in the message list of the
    render. *)
Definition isRendered (m : Message) : bool :=
  negb (isSystem (role m))
  && negb (startsWith (content m) (lit "[HIDDEN_ANALYSIS]"))
  && negb (startsWith (content m) (lit "[CONTEXT: IMAGE ANALYSIS]")).

Definition renderedMessages (messages : list Message) : list Message :=
  filter isRendered messages.

(** [Math.ceil(text.length / 4)] *)
Definition estimateTokens (text : jsstring) : nat :=
  let n := List.length text in
  if (n mod 4 =? 0)%nat then (n / 4)%nat else S (n / 4).

(** [messages.reduce((total, msg) => total + estimateTokens(msg.content), 0)] *)
Definition currentTokens (messages : list Message) : nat :=
  fold_left (fun total msg => (total + estimateTokens (content msg))%nat)
    messages 0%nat.

End View.

Import View.

(** ** The model preference kept in [localStorage] *)

Module Preference.

(** The value stored under the key [selectedModel], if any. *)
Definition Storage : Type := option jsstring.

Definition modelName (m : ModelChoice) : jsstring :=
  match m with
  | mistral => lit "mistral"
  | gemma => lit "gemma"
  end.

Definition sameModel (a b : ModelChoice) : bool :=
  match a, b with
  | mistral, mistral => true
  | gemma, gemma => true
  | _, _ => false
  end.

(** The first mount effect: the saved value is taken over when it is one of
    the two model names. *)
Definition loadPreference (storage : Storage) (s : State) : State :=
  match storage with
  | Some savedModel =>
      if negb (is_empty savedModel)
         && (jseqb savedModel (lit "mistral") || jseqb savedModel (lit "gemma"))
      then
        setSelectedModel
          (if jseqb savedModel (lit "mistral") then mistral else gemma) s
      else s
  | None => s
  end.

(** The second effect: [localStorage.setItem('selectedModel', selectedModel)]. *)
Definition savePreference (s : State) : Storage :=
  Some (modelName (selectedModel s)).

(** Mounting the component.  Both effects run after the first render, in
    source order and with the values of that render; the saving effect runs
    once more after a render in which [selectedModel] has changed. *)
Definition mount (storage : Storage) : State * Storage :=
  let s := loadPreference storage initial in
  let storage1 := savePreference initial in
  (s,
   if sameModel (selectedModel s) (selectedModel initial) then storage1
   else savePreference s).

(** Choosing a model in the dropdown, with the saving effect that follows
    the render. *)
Definition chooseModel (model : ModelChoice) (s : State) : State * Storage :=
  let s' := next s (ModelSelected model) in
  (s', savePreference s').

End Preference.

Import Preference.

(** ** Files arriving in batches: the paste handler and the file input *)

Module Intake.

Local Open Scope Z_scope.

(** One entry of [clipboardData.items]: its type and what [getAsFile()]
    returns. *)
Record ClipboardItem : Type := mkClipboardItem {
  item_type : jsstring;
  item_file : option File
}.

(** [s.indexOf(sub) !== -1] *)
Fixpoint includes (s sub : jsstring) : bool :=
  startsWith s sub
  || match s with
     | [] => false
     | _ :: s' => includes s' sub
     end.

(** Whether [handleImageUpload] gets past its two guards, and so draws a
    random number. *)
Definition passesGuards (file : File) : bool :=
  startsWith (file_type file) (lit "image/")
  && negb (file_size file >? 10 * 1024 * 1024).

(** [files.forEach(file => handleImageUpload(file))]: the calls run one after
    the other; [draw k] is the text of the [k]-th random number drawn. *)
Fixpoint uploadAll (files : list File) (draw : nat -> jsstring) (k : nat)
    (s : State) : State * list Effect :=
  match files with
  | [] => (s, [])
  | file :: rest =>
      let (s1, effects1) := handleImageUpload file (draw k) s in
      let (s2, effects2) :=
        uploadAll rest draw (if passesGuards file then S k else k) s1 in
      (s2, effects1 ++ effects2)
  end.

(** The loop of [handlePaste]: the files of the items whose type contains
    "image". *)
Definition pastedFiles (items : list ClipboardItem) : list File :=
  flat_map
    (fun item =>
       if includes (item_type item) (lit "image") then
         match item_file item with
         | Some file => [file]
         | None => []
         end
       else [])
    items.

(** [handlePaste]; [items] is [None] when the event has no clipboard data. *)
Definition handlePaste (items : option (list ClipboardItem))
    (draw : nat -> jsstring) (s : State) : State * list Effect :=
  match items with
  | None => (s, [])
  | Some items => uploadAll (pastedFiles items) draw 0 s
  end.

(** The [onChange] of the file input. *)
Definition handleFilesChosen (files : list File) (draw : nat -> jsstring)
    (s : State) : State * list Effect :=
  uploadAll files draw 0 s.

(** Every file on the clipboard, whatever its item's type. *)
Definition filesOf (items : list ClipboardItem) : list File :=
  flat_map
    (fun item => match item_file item with Some f => [f] | None => [] end)
    items.

End Intake.

Import Intake.

(** ** Further vocabulary *)

Module Counting.

Definition isFetchChat (e : Effect) : bool :=
  match e with
  | FetchChat _ _ => true
  | _ => false
  end.

Definition isReply (e : Event) : bool :=
  match e with
  | ChatReplied _ => true
  | _ => false
  end.

(** The loading flag is up exactly while a [handleSubmit] call is
    suspended. *)
Definition loadingMatchesPending (s : State) : Prop :=
  isLoading s = true <-> pendingSubmit s <> None.

(** 1 while a [handleSubmit] call is suspended, 0 otherwise. *)
Definition pendingCount (s : State) : nat :=
  match pendingSubmit s with
  | Some _ => 1
  | None => 0
  end.

End Counting.

Import Counting.

(** ** The shape of the message log *)

Module LogShape.

(** Every answered image turn of the log, that is, every image turn whose
    user message is directly followed by an assistant message, directly
    follows an analysis message. *)
Definition analysisPrecedesAnswered (log : list Message) : Prop :=
  forall before m a after,
    log = before ++ m :: a :: after ->
    isImageTurn m = true ->
    role a = assistant ->
    exists before' x, before = before' ++ [x] /\ isAnalysis x = true.

(** What the component keeps true of its log: the answered image turns
    follow their analysis, the loading flag is up exactly while a request
    is in flight, and the log then ends with the user message of the turn,
    which carries the images the suspended [handleSubmit] captured. *)
Record logInvariant (s : State) : Prop := mkLogInvariant {
  li_answered : analysisPrecedesAnswered (messages s);
  li_loading : loadingMatchesPending s;
  li_last :
    forall imgs,
      pendingSubmit s = Some imgs ->
      exists log text, messages s = log ++ [userMessageForDisplay text imgs]
}.

End LogShape.

Import LogShape.

(** ** The API routes *)

Module Server.

(** [process.env], as far as the routes read it. *)
Record Env : Type := mkEnv {
  OPENROUTER_API_KEY : option jsstring;
  OPENROUTER_BASE_URL : option jsstring;
  NEXT_PUBLIC_APP_URL : option jsstring
}.

(** [x || fallback] for an environment variable. *)
Definition envOr (x : option jsstring) (fallback : jsstring) : jsstring :=
  or_else (match x with Some v => v | None => [] end) fallback.

(** Truthiness of an optional string. *)
Definition present (x : option jsstring) : bool :=
  match x with
  | Some v => negb (is_empty v)
  | None => false
  end.

(** [response.ok] *)
Definition ok (status : nat) : bool := (200 <=? status) && (status <=? 299).

(** The statuses [NextResponse.json] accepts together with a body: those
    from 200 to 599 that are not null-body statuses.  For any other status
    it throws, which takes a route into its [catch] block. *)
Definition answerable (status : nat) : bool :=
  (200 <=? status) && (status <=? 599)
  && negb ((status =? 204) || (status =? 205) || (status =? 304)).

(** *** [/api/test] *)

Record TestAnswer : Type := mkTestAnswer {
  apiKeyConfigured : bool;
  apiKeyPrefix : option jsstring;
  test_baseUrl : option jsstring;
  test_environment : option jsstring
}.

(** [GET /api/test], from the three environment variables it reads. *)
Definition testRoute (apiKey baseUrl nodeEnv : option jsstring)
    : TestAnswer :=
  {| apiKeyConfigured := present apiKey;
     apiKeyPrefix :=
       if present apiKey then
         Some (firstn 12 match apiKey with Some k => k | None => [] end
                 ++ lit "...")
       else None;
     test_baseUrl := baseUrl;
     test_environment := nodeEnv |}.

(** *** [/api/chat] *)


(** [body.messages] of a parsed request: missing (or another falsy value),
    something that is not an array, or an array. *)
Inductive MessagesField : Type :=
| MessagesMissing
| MessagesNotArray
| MessagesArray (items : list ApiMessage).

Record ChatRequestBody : Type := mkChatRequestBody {
  req_messages : MessagesField;
  req_model : option ModelChoice
}.

(** The call to OpenRouter; [call_settings] are the sampling settings as
    the source writes them. *)
Record ChatCall : Type := mkChatCall {
  call_url : jsstring;
  call_authorization : jsstring;
  call_referer : jsstring;
  call_title : jsstring;
  call_model : jsstring;
  call_messages : list ApiMessage;
  call_settings : list (jsstring * jsstring)
}.

(** What a 2xx body gives for [choices[0]?.message]: the body does not
    parse or has no [choices] (the access throws), or the first choice's
    message, if there is one. *)
Inductive ChatPayload : Type :=
| ChatUnreadable
| ChatFirst (message : option ApiMessage).

(** What the upstream call does: the fetch throws, or answers with a
    status, a status text and a body. *)
Inductive ChatUpstream : Type :=
| ChatThrew
| ChatResponded (status : nat) (statusText : jsstring) (payload : ChatPayload).

Inductive ChatAnswerBody : Type :=
| ChatFailure (error : jsstring)
| ChatSuccess (message : ApiMessage).

Record ChatAnswer : Type := mkChatAnswer {
  chat_status : nat;
  chat_body : ChatAnswerBody
}.

(** The [catch] block of the routes. *)
Definition internalError : jsstring := lit "Internal server error".

Definition modelMap (model : ModelChoice) : jsstring :=
  match model with
  | mistral => lit "mistralai/devstral-2512:free"
  | gemma => lit "xiaomi/mimo-v2-flash:free"
  end.

(** [POST /api/chat].  [body] is [None] when the request body does not
    parse; the result is the upstream call, if one is made, and the
    answer. *)
Definition chatRoute (env : Env) (body : option ChatRequestBody)
    (upstream : ChatCall -> ChatUpstream) : option ChatCall * ChatAnswer :=
  match body with
  | None => (None, mkChatAnswer 500 (ChatFailure internalError))
  | Some body =>
      match req_messages body with
      | MessagesMissing
      | MessagesNotArray
      | MessagesArray [] =>
          (None,
           mkChatAnswer 400
             (ChatFailure
                (lit "Messages array is required and cannot be empty")))
      | MessagesArray messages =>
          if negb (present (OPENROUTER_API_KEY env)) then
            (None,
             mkChatAnswer 500
               (ChatFailure (lit "OpenRouter API key is not configured")))
          else
            let apiKey :=
              match OPENROUTER_API_KEY env with Some k => k | None => [] end in
            let baseUrl :=
              envOr (OPENROUTER_BASE_URL env)
                (lit "https://openrouter.ai/api/v1") in
            let selectedModel :=
              modelMap
                (match req_model body with Some m => m | None => mistral end) in
            let call :=
              {| call_url := baseUrl ++ lit "/chat/completions";
                 call_authorization := lit "Bearer " ++ apiKey;
                 call_referer :=
                   envOr (NEXT_PUBLIC_APP_URL env)
                     (lit "http://localhost:3000");
                 call_title := lit "AI Chatbot";
                 call_model := selectedModel;
                 call_messages := messages;
                 call_settings :=
                   [ (lit "temperature", lit "0.7");
                     (lit "max_tokens", lit "2048");
                     (lit "top_p", lit "0.9");
                     (lit "frequency_penalty", lit "0.5");
                     (lit "presence_penalty", lit "0.3") ] |} in
            (Some call,
             match upstream call with
             | ChatThrew => mkChatAnswer 500 (ChatFailure internalError)
             | ChatResponded status statusText payload =>
                 if negb (ok status) then
                   if answerable status then
                     mkChatAnswer status
                       (ChatFailure
                          (lit "OpenRouter API error: "
                             ++ number_to_string status ++ lit " "
                             ++ statusText))
                   else mkChatAnswer 500 (ChatFailure internalError)
                 else
                   match payload with
                   | ChatUnreadable =>
                       mkChatAnswer 500 (ChatFailure internalError)
                   | ChatFirst None =>
                       mkChatAnswer 500
                         (ChatFailure (lit "No response from assistant"))
                   | ChatFirst (Some assistantMessage) =>
                       mkChatAnswer 200 (ChatSuccess assistantMessage)
                   end
             end)
      end
  end.

(** How [handleSubmit] reads an answer of the route: [response.ok], then
    [data.error] or [data.message].  There is no reading for a 2xx answer
    without a message. *)
Definition chatReplyOf (answer : ChatAnswer) : option ChatReply :=
  match ok (chat_status answer), chat_body answer with
  | false, ChatFailure error => Some (ReplyError (Some error))
  | false, ChatSuccess _ => Some (ReplyError None)
  | true, ChatSuccess m =>
      Some (ReplyOk (mkMessage (api_role m) (api_content m) None))
  | true, ChatFailure _ => None
  end.

(** The body [handleSubmit] posts. *)
Definition chatBodyOf (context : list ApiMessage) (model : ModelChoice)
    : ChatRequestBody :=
  mkChatRequestBody (MessagesArray context) (Some model).

(** *** [/api/image] *)

Local Unset Elimination Schemes.

(** A JSON value, as [JSON.parse] returns it; numbers are kept as written. *)
Inductive Json : Type :=
| JNull
| JBool (b : bool)
| JNumber (text : jsstring)
| JString (text : jsstring)
| JArray (items : list Json)
| JObject (members : list (jsstring * Json)).

Local Set Elimination Schemes.

Record ImageRequestBody : Type := mkImageRequestBody {
  req_imageUrl : option jsstring;
  req_userPrompt : option jsstring
}.

(** The text sent with the image. *)
Definition visionPrompt : jsstring :=
  join nl
    [ lit "Analyze this image and provide a detailed description in the following JSON format:";
      [];
      lit "{";
      lit "  " ++ dquote ++ lit "description" ++ dquote ++ lit ": " ++ dquote ++ lit "detailed description of the image content, style, and composition" ++ dquote ++ lit ",";
      lit "  " ++ dquote ++ lit "objects" ++ dquote ++ lit ": [" ++ dquote ++ lit "list" ++ dquote ++ lit ", " ++ dquote ++ lit "of" ++ dquote ++ lit ", " ++ dquote ++ lit "all" ++ dquote ++ lit ", " ++ dquote ++ lit "visible" ++ dquote ++ lit ", " ++ dquote ++ lit "objects" ++ dquote ++ lit ", " ++ dquote ++ lit "and" ++ dquote ++ lit ", " ++ dquote ++ lit "elements" ++ dquote ++ lit "],";
      lit "  " ++ dquote ++ lit "colors" ++ dquote ++ lit ": [" ++ dquote ++ lit "dominant" ++ dquote ++ lit ", " ++ dquote ++ lit "colors" ++ dquote ++ lit ", " ++ dquote ++ lit "and" ++ dquote ++ lit ", " ++ dquote ++ lit "color" ++ dquote ++ lit ", " ++ dquote ++ lit "palette" ++ dquote ++ lit "],";
      lit "  " ++ dquote ++ lit "text_content" ++ dquote ++ lit ": " ++ dquote ++ lit "any text, writing, or signage visible in the image" ++ dquote ++ lit ",";
      lit "  " ++ dquote ++ lit "emotions" ++ dquote ++ lit ": [" ++ dquote ++ lit "emotions" ++ dquote ++ lit ", " ++ dquote ++ lit "or" ++ dquote ++ lit ", " ++ dquote ++ lit "mood" ++ dquote ++ lit ", " ++ dquote ++ lit "conveyed" ++ dquote ++ lit ", " ++ dquote ++ lit "by" ++ dquote ++ lit ", " ++ dquote ++ lit "the" ++ dquote ++ lit ", " ++ dquote ++ lit "image" ++ dquote ++ lit "],";
      lit "  " ++ dquote ++ lit "actions" ++ dquote ++ lit ": [" ++ dquote ++ lit "actions" ++ dquote ++ lit ", " ++ dquote ++ lit "or" ++ dquote ++ lit ", " ++ dquote ++ lit "activities" ++ dquote ++ lit ", " ++ dquote ++ lit "happening" ++ dquote ++ lit ", " ++ dquote ++ lit "in" ++ dquote ++ lit ", " ++ dquote ++ lit "the" ++ dquote ++ lit ", " ++ dquote ++ lit "image" ++ dquote ++ lit "],";
      lit "  " ++ dquote ++ lit "context" ++ dquote ++ lit ": " ++ dquote ++ lit "overall context, setting, and environment of the image" ++ dquote;
      lit "}";
      [];
      lit "Be extremely detailed and specific. Include lighting, perspective, quality, and any other relevant visual details. If no text is visible, set text_content to null. If no specific emotions are apparent, use empty array. Analyze every aspect of the image thoroughly." ].

(** The call to the vision model. *)
Record VisionCall : Type := mkVisionCall {
  vision_url : jsstring;
  vision_authorization : jsstring;
  vision_referer : jsstring;
  vision_title : jsstring;
  vision_model : jsstring;
  vision_text : jsstring;
  vision_image : jsstring;
  vision_settings : list (jsstring * jsstring)
}.

(** What a 2xx body gives for [choices[0]?.message?.content]. *)
Inductive VisionPayload : Type :=
| VisionUnreadable
| VisionContent (content : option jsstring).

Inductive VisionUpstream : Type :=
| VisionThrew (message : option jsstring)
| VisionResponded (status : nat) (errorData : jsstring)
    (payload : VisionPayload).

Inductive ImageAnswerBody : Type :=
| ImageFailure (error : jsstring)
| ImageDescribed (description : Json).

Record ImageAnswer : Type := mkImageAnswer {
  image_status : nat;
  image_body : ImageAnswerBody
}.

(** The end of the image routes, from the parsed upstream body on.
    [parse] is [JSON.parse], [None] when it throws. *)
Definition describe (parse : jsstring -> option Json)
    (missing context : jsstring) (payload : VisionPayload) : ImageAnswer :=
  match payload with
  | VisionUnreadable => mkImageAnswer 500 (ImageFailure internalError)
  | VisionContent content =>
      if negb (present content) then mkImageAnswer 500 (ImageFailure missing)
      else
        let description := match content with Some d => d | None => [] end in
        match parse description with
        | Some parsedDescription =>
            mkImageAnswer 200 (ImageDescribed parsedDescription)
        | None =>
            mkImageAnswer 200
              (ImageDescribed
                 (JObject
                    [ (lit "description", JString description);
                      (lit "objects", JArray []);
                      (lit "colors", JArray []);
                      (lit "context", JString context) ]))
        end
  end.

Definition visionCall (env : Env) (apiKey title model imageUrl : jsstring)
    : VisionCall :=
  {| vision_url :=
       envOr (OPENROUTER_BASE_URL env) (lit "https://openrouter.ai/api/v1")
         ++ lit "/chat/completions";
     vision_authorization := lit "Bearer " ++ apiKey;
     vision_referer :=
       envOr (NEXT_PUBLIC_APP_URL env) (lit "http://localhost:3000");
     vision_title := title;
     vision_model := model;
     vision_text := visionPrompt;
     vision_image := imageUrl;
     vision_settings :=
       [(lit "temperature", lit "0.1"); (lit "max_tokens", lit "1500")] |}.

(** [POST /api/image] *)
Definition imageRoute (parse : jsstring -> option Json) (env : Env)
    (body : option ImageRequestBody) (upstream : VisionCall -> VisionUpstream)
    : option VisionCall * ImageAnswer :=
  match body with
  | None => (None, mkImageAnswer 500 (ImageFailure internalError))
  | Some body =>
      if negb (present (req_imageUrl body)) then
        (None, mkImageAnswer 400 (ImageFailure (lit "Image URL is required")))
      else
        let imageUrl :=
          match req_imageUrl body with Some u => u | None => [] end in
        let apiKey := option_map trim (OPENROUTER_API_KEY env) in
        if negb (present apiKey) then
          (None,
           mkImageAnswer 500
             (ImageFailure (lit "OpenRouter API key is not configured")))
        else
          let visionModel := lit "google/gemma-3-4b-it:free" in
          let call :=
            visionCall env (match apiKey with Some k => k | None => [] end)
              (lit "Kacung") visionModel imageUrl in
          (Some call,
           match upstream call with
           | VisionThrew _ => mkImageAnswer 500 (ImageFailure internalError)
           | VisionResponded status errorData payload =>
               if negb (ok status) then
                 let lastError :=
                   lit "Model " ++ visionModel ++ lit ": "
                     ++ number_to_string status ++ lit " " ++ errorData in
                 mkImageAnswer 500
                   (ImageFailure
                      (lit "Vision model failed. Error: " ++ lastError))
               else
                 describe parse (lit "Failed to get image description")
                   (lit "Image description from vision model") payload
           end)
  end.

(** How [handleImageUpload] reads an answer of the route: [response.ok],
    then [errorData.error] or [JSON.stringify(processData.description)].
    [stringify] is [JSON.stringify] on JSON values. *)
Definition imageReplyOf (stringify : Json -> jsstring) (answer : ImageAnswer)
    : ImageReply :=
  match ok (image_status answer), image_body answer with
  | true, ImageDescribed description => ImageOk (Some (stringify description))
  | true, ImageFailure _ => ImageOk None
  | false, ImageFailure error => ImageError (Some error) (image_status answer)
  | false, ImageDescribed _ => ImageError None (image_status answer)
  end.

(** *** The route that tries several vision models in turn *)

Definition visionModels : list jsstring :=
  [ lit "google/gemini-2.0-flash-exp:free";
    lit "google/gemma-3-27b-it:free";
    lit "google/gemma-3-12b-it:free";
    lit "nvidia/nemotron-nano-12b-v2-vl:free";
    lit "qwen/qwen2.5-vl-72b-instruct:free";
    lit "moonshotai/kimi-vl-a3b-thinking:free" ].

(** The variables of the loop, and the calls made so far. *)
Record Search : Type := mkSearch {
  visionModel : jsstring;
  lastError : jsstring;
  finalResponse : option VisionPayload;
  calls : list VisionCall
}.

(** The [for ... of] loop over the models, with its [break]. *)
Fixpoint tryModels (call : jsstring -> VisionCall)
    (upstream : VisionCall -> VisionUpstream) (models : list jsstring)
    (state : Search) : Search :=
  match models with
  | [] => state
  | model :: rest =>
      let made := calls state ++ [call model] in
      match upstream (call model) with
      | VisionThrew message =>
          tryModels call upstream rest
            (mkSearch (visionModel state)
               (lit "Model " ++ model ++ lit ": "
                  ++ match message with
                     | Some text => text
                     | None => lit "Unknown error"
                     end)
               (finalResponse state) made)
      | VisionResponded status errorData payload =>
          if ok status then
            mkSearch model (lastError state) (Some payload) made
          else
            tryModels call upstream rest
              (mkSearch (visionModel state)
                 (lit "Model " ++ model ++ lit ": "
                    ++ number_to_string status ++ lit " " ++ errorData)
                 (finalResponse state) made)
      end
  end.

(** [POST] of the several-models route. *)
Definition imageRouteSeveral (parse : jsstring -> option Json) (env : Env)
    (body : option ImageRequestBody) (upstream : VisionCall -> VisionUpstream)
    : list VisionCall * ImageAnswer :=
  match body with
  | None => ([], mkImageAnswer 500 (ImageFailure internalError))
  | Some body =>
      if negb (present (req_imageUrl body)) then
        ([], mkImageAnswer 400 (ImageFailure (lit "Image URL is required")))
      else
        let imageUrl :=
          match req_imageUrl body with Some u => u | None => [] end in
        let apiKey := option_map trim (OPENROUTER_API_KEY env) in
        if negb (present apiKey) then
          ([],
           mkImageAnswer 500
             (ImageFailure (lit "OpenRouter API key is not configured")))
        else
          let apiKey := match apiKey with Some k => k | None => [] end in
          let call model :=
            visionCall env apiKey (lit "AI Image Processor") model imageUrl in
          let found :=
            tryModels call upstream visionModels
              (mkSearch (hd [] visionModels) [] None []) in
          (calls found,
           match finalResponse found with
           | None =>
               mkImageAnswer 500
                 (ImageFailure
                    (lit "All Nvidia vision models failed. Last error: "
                       ++ lastError found))
           | Some payload =>
               describe parse (lit "Failed to get image description")
                 (lit "Image description from vision model") payload
           end)
  end.

(** An attempt that makes the loop go on, and the text the loop keeps of
    it. *)
Definition attemptFails (u : VisionUpstream) : bool :=
  match u with
  | VisionThrew _ => true
  | VisionResponded status _ _ => negb (ok status)
  end.

Definition failureText (model : jsstring) (u : VisionUpstream) : jsstring :=
  match u with
  | VisionThrew message =>
      lit "Model " ++ model ++ lit ": "
        ++ match message with
           | Some text => text
           | None => lit "Unknown error"
           end
  | VisionResponded status errorData _ =>
      lit "Model " ++ model ++ lit ": " ++ number_to_string status
        ++ lit " " ++ errorData
  end.

(** [lastError] after the attempts on [models] have all failed. *)
Definition keptError (call : jsstring -> VisionCall)
    (upstream : VisionCall -> VisionUpstream) (models : list jsstring)
    (before : jsstring) : jsstring :=
  fold_left (fun _ model => failureText model (upstream (call model)))
    models before.

(** The fallback description built around a text that is not JSON. *)
Definition fallbackDescription (text context : jsstring) : Json :=
  JObject
    [ (lit "description", JString text);
      (lit "objects", JArray []);
      (lit "colors", JArray []);
      (lit "context", JString context) ].

End Server.

Import Server.

(** *** The Gemini variant of the image route: splitting a data URL *)

Module DataUrl.

(** The fragment of regular expressions the pattern needs: anchors,
    characters, greedy [+] on a class, numbered groups. *)
Inductive pattern : Type :=
| AtStart
| AtEnd
| Lit (c : N)
| Some1 (p : N -> bool)
| Group (index : nat) (r : pattern)
| Then (a b : pattern).

Definition captures : Type := list (nat * jsstring).

(** [p+] followed by [k], the longest repetition first. *)
Fixpoint some1 {R : Type} (p : N -> bool) (s : jsstring)
    (k : jsstring -> option R) : option R :=
  match s with
  | c :: s' =>
      if p c then
        match some1 p s' k with
        | Some r => Some r
        | None => k s'
        end
      else None
  | [] => None
  end.

(** Matching at one position; [atStart] tells whether it is position 0 and
    nothing has been consumed. *)
Fixpoint pmatch (r : pattern) (atStart : bool) (s : jsstring)
    (caps : captures)
    (k : bool -> jsstring -> captures -> option captures) : option captures :=
  match r with
  | AtStart => if atStart then k atStart s caps else None
  | AtEnd => match s with [] => k atStart s caps | _ :: _ => None end
  | Lit c =>
      match s with
      | x :: s' => if (x =? c)%N then k false s' caps else None
      | [] => None
      end
  | Some1 p => some1 p s (fun t => k false t caps)
  | Group index r1 =>
      pmatch r1 atStart s caps
        (fun b t caps' =>
           k b t
             ((index, firstn (List.length s - List.length t) s) :: caps'))
  | Then a b =>
      pmatch a atStart s caps (fun b' t caps' => pmatch b b' t caps' k)
  end.

(** [s.match(r)] without the [g] flag: the first position that matches. *)
Fixpoint searchFrom (r : pattern) (atStart : bool) (s : jsstring)
    : option captures :=
  match pmatch r atStart s [] (fun _ _ caps => Some caps) with
  | Some caps => Some caps
  | None =>
      match s with
      | [] => None
      | _ :: s' => searchFrom r false s'
      end
  end.

Definition search (r : pattern) (s : jsstring) : option captures :=
  searchFrom r true s.

(** [match[index]] *)
Fixpoint group (index : nat) (caps : captures) : jsstring :=
  match caps with
  | [] => []
  | (i, text) :: rest => if (i =? index)%nat then text else group index rest
  end.

Fixpoint thens (r : pattern) (rs : list pattern) : pattern :=
  match rs with
  | [] => r
  | r' :: rs' => Then r (thens r' rs')
  end.

Definition notSemicolon (c : N) : bool := negb (c =? 59)%N.

(** [/^data:([^;]+);base64,(.+)$/] *)
Definition re_dataUrl : pattern :=
  thens AtStart
    [ Lit 100; Lit 97; Lit 116; Lit 97; Lit 58;
      Group 1 (Some1 notSemicolon);
      Lit 59; Lit 98; Lit 97; Lit 115; Lit 101; Lit 54; Lit 52; Lit 44;
      Group 2 (Some1 dot);
      AtEnd ]%N.

(** The media type and the data handed to Gemini for [imageUrl]. *)
Definition splitDataUrl (imageUrl : jsstring) : jsstring * jsstring :=
  let mimeType := lit "image/jpeg" in
  let base64Data := imageUrl in
  if startsWith imageUrl (lit "data:") then
    match search re_dataUrl imageUrl with
    | Some caps => (group 1 caps, group 2 caps)
    | None => (mimeType, base64Data)
    end
  else (mimeType, base64Data).

End DataUrl.

Import DataUrl.

(** ** Inputs of the further examples *)

Module Cases.

Local Open Scope Z_scope.

Definition draw1 : jsstring := lit "0.4fzyo82mvyr".

Definition pngUrl : jsstring := lit "data:image/png;base64,iVBORw0KGgo=".

Definition draws (k : nat) : jsstring :=
  match k with
  | O => lit "0.4fzyo82mvyr"
  | _ => lit "0.k3b9x1q7d2a"
  end.

Definition clipboard : list ClipboardItem :=
  [ mkClipboardItem (lit "text/plain") None;
    mkClipboardItem (lit "image/png") (Some Scenario.photo) ].

Definition env1 : Env := mkEnv (Some (lit "sk-or-v1-0a1b2c")) None None.

(** An upstream that is rate limited. *)
Definition limited (call : ChatCall) : ChatUpstream :=
  ChatResponded 429 (lit "Too Many Requests") ChatUnreadable.

(** An upstream that answers with one choice. *)
Definition answering (call : ChatCall) : ChatUpstream :=
  ChatResponded 200 (lit "OK")
    (ChatFirst (Some (mkApiMessage assistant (lit "A red car.")))).

(** A vision upstream where only the second model of the list answers. *)
Definition secondWorks (call : VisionCall) : VisionUpstream :=
  if jseqb (vision_model call) (lit "google/gemma-3-27b-it:free")
  then VisionResponded 200 [] (VisionContent (Some (lit "a red car")))
  else VisionResponded 503 (lit "busy") VisionUnreadable.

(** A vision upstream where no model answers. *)
Definition allBusy (call : VisionCall) : VisionUpstream :=
  VisionResponded 503 (lit "busy") VisionUnreadable.

(** Stand-ins for [JSON.parse] and [JSON.stringify]: nothing parses, and
    every value prints as an empty object. *)
Definition noJson (text : jsstring) : option Json := None.

Definition flat (value : Json) : jsstring := lit "{}".

Definition severalCall (model : jsstring) : VisionCall :=
  visionCall env1 (lit "sk-or-v1-0a1b2c") (lit "AI Image Processor") model
    pngUrl.

End Cases.

(** * Properties *)

(** ** Worked examples *)

Section Examples.

Local Open Scope Z_scope.

Example number_to_string_12 : number_to_string 12 = lit "12".
Proof. reflexivity. Qed.

Example trim_example :
  trim (lit "  a red car " ++ nl) = lit "a red car".
Proof. reflexivity. Qed.

Example formatMathContent_example :
  formatMathContent
    (lit "a \(x+1\) b \[y\] [ \alpha + 1 ] \partia l \delt a \phi   x \frac  {a}")
  = lit "a $x+1$ b $$y$$ $$\alpha + 1$$ \partial \delta \phi x \frac{a}".
Proof. vm_compute. reflexivity. Qed.

(** Once the delimiters are rewritten, a second pass finds nothing to do. *)
Example formatMathContent_settled :
  formatMathContent (lit "\(\phi   x\) and \frac  {a}{b} \partia l")
  = lit "$\phi x$ and \frac{a}{b} \partial"
  /\ hasOpeningDelimiter
       (delimiter_rewrites (lit "\(\phi   x\) and \frac  {a}{b} \partia l"))
     = false.
Proof. split; vm_compute; reflexivity. Qed.

(** Text only: the log is the user message, then the answer as well. *)
Example hello_turn :
  let submitted := run initial [InputChanged (lit "Hello"); FormSubmitted] in
  let m := mkMessage assistant (lit "Hi!") None in
  messages submitted = [mkMessage user (lit "Hello") (Some [])]
  /\ messages (next submitted (ChatReplied (ReplyOk m)))
     = [mkMessage user (lit "Hello") (Some []); m].
Proof. split; reflexivity. Qed.

(** One image described as "a red car": the request of the turn. *)
Example red_car_request :
  requests Scenario.ready [FormSubmitted]
  = [FetchChat
       [ sanitize baseSystemMessage;
         mkApiMessage user
           (lit "[CONTEXT: IMAGE ANALYSIS] The user has provided 1 image(s). Here is the detailed analysis:"
              ++ nl ++ nl ++ lit "[IMAGE 1 ANALYSIS]:" ++ nl
              ++ dquote ++ lit "a red car" ++ dquote ++ nl ++ nl
              ++ lit "(Refer to these as Image 1, Image 2, etc. Use this context to answer the user's questions.)");
         mkApiMessage user (lit "What is this?") ]
       mistral].
Proof. vm_compute. reflexivity. Qed.

(** The same turn answered: what the log keeps. *)
Example red_car_log :
  map content (messages Scenario.answered)
  = [ lit "[CONTEXT: IMAGE ANALYSIS] The user has provided images. Here is the detailed analysis:"
        ++ nl ++ lit "[IMAGE 1 ANALYSIS]:" ++ nl
        ++ dquote ++ lit "a red car" ++ dquote ++ nl ++ nl
        ++ lit "(Use this information to answer the user's questions about the images.)";
      lit "What is this?";
      lit "A red car." ].
Proof. vm_compute. reflexivity. Qed.

(** A fetch that rejects leaves its interval alive: the value is reset to 0
    and the next firing raises it again. *)
Example rejected_fetch_keeps_interval :
  let s :=
    next Scenario.waiting (ChatReplied (ReplyRejected (lit "Failed to fetch"))) in
  aiResponseProgress s = 0
  /\ progressIntervals s = 1%nat
  /\ aiResponseProgress (next s ProgressTicked) = 1.
Proof. repeat split; reflexivity. Qed.

End Examples.

(** ** Strings and numbers *)

Section StringFacts.

Lemma uint_chars_digits (d : Decimal.uint) :
  Forall (fun c => is_digit c = true) (uint_chars d).
Proof.
  induction d; simpl; constructor; auto.
Qed.

Lemma to_uint_nonnil (n : nat) : Nat.to_uint n <> Decimal.Nil.
Proof.
  rewrite <- (DecimalNat.Unsigned.of_to n) at 1.
  rewrite DecimalNat.Unsigned.to_of.
  apply DecimalFacts.unorm_nonnil.
Qed.

Lemma uint_chars_nil (d : Decimal.uint) :
  uint_chars d = [] -> d = Decimal.Nil.
Proof.
  destruct d; simpl; intro H; try discriminate H; reflexivity.
Qed.

(** The decimal text of a number starts with a digit. *)
Lemma number_to_string_head (n : nat) :
  exists c rest,
    number_to_string n = c :: rest /\ is_digit c = true.
Proof.
  unfold number_to_string.
  destruct (uint_chars (Nat.to_uint n)) as [|c rest] eqn:E.
  - apply uint_chars_nil in E.
    exfalso. exact (to_uint_nonnil n E).
  - exists c, rest. split; [reflexivity|].
    pose proof (uint_chars_digits (Nat.to_uint n)) as F.
    rewrite E in F. inversion F; assumption.
Qed.

Lemma uint_chars_inj (d d' : Decimal.uint) :
  uint_chars d = uint_chars d' -> d = d'.
Proof.
  revert d'; induction d; destruct d'; simpl; intro H;
    try discriminate H; try reflexivity;
    injection H as H; f_equal; auto.
Qed.

(** Different numbers print differently. *)
Lemma number_to_string_inj (n m : nat) :
  number_to_string n = number_to_string m -> n = m.
Proof.
  intro H. apply uint_chars_inj in H.
  apply DecimalNat.Unsigned.to_uint_inj in H. exact H.
Qed.

Lemma map_index_length {A B : Type} (f : A -> nat -> B) (l : list A) :
  forall k, List.length (map_index f k l) = List.length l.
Proof.
  induction l as [|x l IH]; intro k; simpl; [reflexivity|].
  now rewrite IH.
Qed.

Lemma map_index_nth {A B : Type} (f : A -> nat -> B) (l : list A) :
  forall k i x,
    nth_error l i = Some x ->
    nth_error (map_index f k l) i = Some (f x (k + i)).
Proof.
  induction l as [|y l IH]; intros k i x H.
  - destruct i; discriminate H.
  - destruct i as [|i]; simpl in *.
    + injection H as ->. now rewrite Nat.add_0_r.
    + rewrite (IH (S k) i x H). do 2 f_equal. lia.
Qed.

(** Every section text is non-empty, so [filter(Boolean)] keeps all. *)
Lemma sections_survive_filter (imgs : list ImageData) :
  forall k,
    filter (fun text => negb (is_empty text)) (map_index imageSection k imgs)
    = map_index imageSection k imgs.
Proof.
  induction imgs as [|img imgs IH]; intro k; simpl; [reflexivity|].
  now rewrite IH.
Qed.

End StringFacts.

(** ** Context assembly *)

Section ContextFacts.

Lemma handleSubmit_accepted (s : State) :
  submitBlocked s = false ->
  handleSubmit s =
    (mkState
       (messages s
          ++ [userMessageForDisplay (trim (input s)) (uploadedImages s)])
       [] true None (selectedModel s) (internalSummary s) [] 25
       (lit "Sending request to AI...") (Some (uploadedImages s))
       (S (progressIntervals s)) (progressResets s) (uploads s),
     [FetchChat
        (finalContext (messages s) (internalSummary s) (trim (input s))
           (uploadedImages s))
        (selectedModel s)]).
Proof.
  intro H. unfold handleSubmit. rewrite H. reflexivity.
Qed.

Lemma handleSubmit_blocked (s : State) :
  submitBlocked s = true -> handleSubmit s = (s, []).
Proof.
  intro H. unfold handleSubmit. now rewrite H.
Qed.

(** C1.  For an accepted submission the context handed to the completion
    service is: the persona message, then the carried summary if there is
    one, then the whole prior log in order, then (only when images are
    attached) one user-role analysis message whose text lists one section
    per image, numbered from 1 and carrying that image's description, and
    last the new user text. *)
Theorem context_order (s : State) :
  submitBlocked s = false ->
  exists sections : list jsstring,
    List.length sections = List.length (uploadedImages s)
    /\ (forall i img,
          nth_error (uploadedImages s) i = Some img ->
          nth_error sections i =
            Some (lit "[IMAGE " ++ number_to_string (i + 1)
                    ++ lit " ANALYSIS]:" ++ nl
                    ++ show_optional (description img)))
    /\ snd (handleSubmit s) =
         [FetchChat
            ([sanitize baseSystemMessage]
             ++ match internalSummary s with
                | Some summary => [sanitize summary]
                | None => []
                end
             ++ map sanitize (messages s)
             ++ match uploadedImages s with
                | [] => []
                | _ :: _ =>
                    [mkApiMessage user
                       (outboundAnalysisText
                          (List.length (uploadedImages s)) sections)]
                end
             ++ [mkApiMessage user (trim (input s))])
            (selectedModel s)].
Proof.
  intro H.
  exists (map_index imageSection 0 (uploadedImages s)).
  split; [apply map_index_length|].
  split.
  - intros i img Hi. now rewrite (map_index_nth imageSection _ 0 i Hi).
  - rewrite (handleSubmit_accepted s H). cbn [snd].
    unfold finalContext, contextSource, newMessagesToAdd.
    rewrite !map_app.
    assert (E1 : map sanitize
                   match internalSummary s with
                   | Some summary => [summary]
                   | None => []
                   end
                 = match internalSummary s with
                   | Some summary => [sanitize summary]
                   | None => []
                   end)
      by (destruct (internalSummary s); reflexivity).
    assert (E2 : map sanitize
                   (if 0 <? List.length (uploadedImages s)
                    then [analysisMessage (uploadedImages s)] else [])
                 = match uploadedImages s with
                   | [] => []
                   | _ :: _ =>
                       [mkApiMessage user
                          (outboundAnalysisText
                             (List.length (uploadedImages s))
                             (map_index imageSection 0 (uploadedImages s)))]
                   end).
    { destruct (uploadedImages s) as [|img imgs] eqn:E; [reflexivity|].
      cbn [List.length Nat.ltb Nat.leb map].
      unfold sanitize, analysisMessage, outboundAnalysisText,
        imageDescriptions.
      cbn [role content].
      now rewrite sections_survive_filter. }
    rewrite E1, E2. reflexivity.
Qed.

(** C3.  Each element of the transmitted array is the [{role, content}]
    projection of the message at the same position of the assembled
    context, and its properties are exactly [role] and [content]: [images]
    and the upload fields of the attachments do not cross. *)
Theorem transmitted_role_and_content_only (s : State) :
  submitBlocked s = false ->
  exists context,
    snd (handleSubmit s) = [FetchChat context (selectedModel s)]
    /\ Forall2
         (fun (msg : Message) (sent : ApiMessage) =>
            sent = mkApiMessage (role msg) (content msg))
         (contextSource (messages s) (internalSummary s) (trim (input s))
            (uploadedImages s))
         context
    /\ Forall
         (fun sent =>
            map fst (wire_fields sent) = [lit "role"; lit "content"])
         context.
Proof.
  intro H.
  exists (finalContext (messages s) (internalSummary s) (trim (input s))
            (uploadedImages s)).
  split; [now rewrite (handleSubmit_accepted s H)|].
  unfold finalContext.
  generalize (contextSource (messages s) (internalSummary s) (trim (input s))
                (uploadedImages s)) as source.
  intro source. split.
  - induction source as [|m source IH]; simpl; constructor; auto.
  - apply Forall_forall. intros sent _. reflexivity.
Qed.

Lemma context_order_witness :
  exists (sections : list jsstring) context,
    List.length sections = 1%nat
    /\ snd (handleSubmit Scenario.ready) = [FetchChat context mistral].
Proof.
  destruct (@context_order Scenario.ready eq_refl) as (sections & Hl & _ & Hc).
  exists sections. eexists. split; [exact Hl | exact Hc].
Defined.

Lemma transmitted_role_and_content_only_witness :
  exists context,
    snd (handleSubmit Scenario.ready) = [FetchChat context mistral]
    /\ Forall
         (fun sent =>
            map fst (wire_fields sent) = [lit "role"; lit "content"])
         context.
Proof.
  destruct (@transmitted_role_and_content_only Scenario.ready eq_refl)
    as (context & Hc & _ & Hf).
  exists context. split; [exact Hc | exact Hf].
Defined.

End ContextFacts.

(** ** The conversation state machine *)

Section MachineFacts.

Local Open Scope Z_scope.

Lemma run_app (s : State) (es es' : list Event) :
  run s (es ++ es') = run (run s es) es'.
Proof. unfold run. apply fold_left_app. Qed.

Lemma run_cons (s : State) (e : Event) (es : list Event) :
  run s (e :: es) = run (next s e) es.
Proof. reflexivity. Qed.

Lemma reachable_initial : reachable initial.
Proof. exists []. reflexivity. Qed.

Lemma reachable_next (s : State) (e : Event) :
  reachable s -> reachable (next s e).
Proof.
  intros [es <-]. exists (es ++ [e]). now rewrite run_app.
Qed.

Lemma reachable_run (s : State) (es : list Event) :
  reachable s -> reachable (run s es).
Proof.
  revert s. induction es as [|e es IH]; intros s H; [exact H|].
  rewrite run_cons. apply IH. now apply reachable_next.
Qed.

Lemma crawl_le (p : Z) : p <= crawl p.
Proof. unfold crawl. destruct (p >=? 85); lia. Qed.

Lemma crawl_cap (p : Z) : p <= 85 -> crawl p <= 85.
Proof. unfold crawl. destruct (p >=? 85) eqn:E; lia. Qed.

(** Accepting a submission starts the wait. *)
Lemma submit_awaiting (s : State) :
  submitBlocked s = false ->
  awaiting
    (messages s ++ [userMessageForDisplay (trim (input s)) (uploadedImages s)])
    (uploadedImages s) (next s FormSubmitted).
Proof.
  intro H. unfold next, step. rewrite (handleSubmit_accepted s H).
  constructor; cbn; try reflexivity. lia.
Qed.

(** While the request is in flight nothing but its answer ends the wait:
    the log, the captured images and the empty staging area are kept, and
    the progress value stays at or below 85. *)
Lemma awaiting_step (log : list Message) (imgs : list ImageData) (s : State)
    (e : Event) :
  awaiting log imgs s -> quiet e = true -> awaiting log imgs (next s e).
Proof.
  intros [Hl Hp Hm Hi Hu Hg] Hq. unfold next, step.
  destruct e as [v|m| |r| | | |f r|i|n ev]; try discriminate Hq.
  - rewrite Hl. now constructor.
  - now constructor.
  - rewrite handleSubmit_blocked; [now constructor|].
    unfold submitBlocked. rewrite Hl. now rewrite orb_true_r.
  - unfold progressTick. destruct (progressIntervals s); cbn [fst].
    + now constructor.
    + constructor; cbn; auto using crawl_cap.
  - unfold progressReset. destruct (progressResets s); cbn [fst].
    + now constructor.
    + constructor; cbn; auto. lia.
  - rewrite Hl. now constructor.
  - rewrite Hl. now constructor.
  - rewrite Hu. destruct i; now constructor.
  - unfold resumeUpload.
    destruct (nth_error (uploads s) n) as [t|]; [|now constructor].
    destruct (phase t); destruct ev as [d| | |r|]; try destruct r;
      cbn [fst]; try (now constructor);
      constructor; cbn; rewrite ?Hu; auto.
Qed.

Lemma awaiting_run (log : list Message) (imgs : list ImageData)
    (es : list Event) :
  forall s,
    awaiting log imgs s -> forallb quiet es = true ->
    awaiting log imgs (run s es).
Proof.
  induction es as [|e es IH]; intros s H Hq; [exact H|].
  cbn [forallb] in Hq. apply andb_prop in Hq as [Hq Hqs].
  rewrite run_cons. apply IH; [|exact Hqs]. now apply awaiting_step.
Qed.

(** With no reset left over from an earlier turn, no event before the
    answer lowers the progress value, and none schedules a reset. *)
Lemma steady_step (log : list Message) (imgs : list ImageData) (s : State)
    (e : Event) :
  awaiting log imgs s -> progressResets s = 0%nat -> quiet e = true ->
  progressResets (next s e) = 0%nat
  /\ aiResponseProgress s <= aiResponseProgress (next s e).
Proof.
  intros [Hl Hp Hm Hi Hu Hg] Hr Hq. unfold next, step.
  destruct e as [v|m| |r| | | |f r|i|n ev]; try discriminate Hq.
  - rewrite Hl. split; [exact Hr | apply Z.le_refl].
  - split; [exact Hr | apply Z.le_refl].
  - rewrite handleSubmit_blocked; [split; [exact Hr | apply Z.le_refl]|].
    unfold submitBlocked. rewrite Hl. now rewrite orb_true_r.
  - unfold progressTick. destruct (progressIntervals s); cbn [fst].
    + split; [exact Hr | apply Z.le_refl].
    + split; [exact Hr | apply crawl_le].
  - unfold progressReset. rewrite Hr.
    split; [exact Hr | apply Z.le_refl].
  - rewrite Hl. split; [exact Hr | apply Z.le_refl].
  - rewrite Hl. split; [exact Hr | apply Z.le_refl].
  - rewrite Hu. destruct i; split; solve [exact Hr | apply Z.le_refl].
  - unfold resumeUpload.
    destruct (nth_error (uploads s) n) as [t|];
      [|split; [exact Hr | apply Z.le_refl]].
    destruct (phase t); destruct ev as [d| | |r|]; try destruct r;
      cbn [fst]; split; solve [exact Hr | apply Z.le_refl].
Qed.

Lemma steady_run (log : list Message) (imgs : list ImageData)
    (es : list Event) :
  forall s,
    awaiting log imgs s -> progressResets s = 0%nat ->
    forallb quiet es = true ->
    progressResets (run s es) = 0%nat
    /\ aiResponseProgress s <= aiResponseProgress (run s es).
Proof.
  induction es as [|e es IH]; intros s H Hr Hq;
    [split; [exact Hr | apply Z.le_refl]|].
  cbn [forallb] in Hq. apply andb_prop in Hq as [Hq Hqs].
  rewrite run_cons.
  destruct (@steady_step _ _ _ e H Hr Hq) as [Hr' Hle].
  destruct (IH (next s e) (@awaiting_step _ _ _ e H Hq) Hr' Hqs)
    as [Hr'' Hle'].
  split; [exact Hr'' | now apply Z.le_trans with (2 := Hle')].
Qed.

Lemma next_reply_ok (log : list Message) (imgs : list ImageData) (s : State)
    (m : Message) :
  awaiting log imgs s ->
  messages (next s (ChatReplied (ReplyOk m))) = applyResponse log imgs m
  /\ aiResponseProgress (next s (ChatReplied (ReplyOk m))) = 100
  /\ progressResets (next s (ChatReplied (ReplyOk m)))
     = S (progressResets s)
  /\ uploadedImages (next s (ChatReplied (ReplyOk m))) = []
  /\ internalSummary (next s (ChatReplied (ReplyOk m))) = internalSummary s.
Proof.
  intros [Hl Hp Hm Hi Hu Hg]. unfold next, step, resumeSubmit.
  rewrite Hp. cbn. rewrite Hm, Hu. repeat split; reflexivity.
Qed.

Lemma next_reply_failed (log : list Message) (imgs : list ImageData)
    (s : State) (reply : ChatReply) :
  awaiting log imgs s ->
  (forall m, reply <> ReplyOk m) ->
  let s' := next s (ChatReplied reply) in
  messages s' = log /\ aiResponseProgress s' = 0 /\ isLoading s' = false
  /\ uploadedImages s' = []
  /\ error s' =
       Some match reply with
            | ReplyError (Some e) => or_else e (lit "Failed to get response")
            | ReplyError None => lit "Failed to get response"
            | ReplyRejected message => message
            | ReplyOk _ => []
            end.
Proof.
  intros [Hl Hp Hm Hi Hu Hg] Hr. unfold next, step, resumeSubmit.
  rewrite Hp. destruct reply as [m|e|msg].
  - now destruct (Hr m).
  - cbn. rewrite Hm, Hu. destruct e; repeat split; reflexivity.
  - cbn. rewrite Hm, Hu. repeat split; reflexivity.
Qed.

(** Only a file arriving at the upload handler can fill the staging area. *)
Lemma staging_step (s : State) (e : Event) :
  uploadedImages s = [] -> noUpload e = true ->
  uploadedImages (next s e) = [].
Proof.
  intros Hu Hq. unfold next, step.
  destruct e as [v|m| |r| | | |f r|i|n ev]; try discriminate Hq.
  - now destruct (isLoading s).
  - exact Hu.
  - unfold handleSubmit. now destruct (submitBlocked s).
  - unfold resumeSubmit.
    destruct (pendingSubmit s); [|exact Hu]. now destruct r.
  - unfold progressTick. now destruct (progressIntervals s).
  - unfold progressReset. now destruct (progressResets s).
  - now destruct (isLoading s).
  - rewrite Hu. now destruct i.
  - unfold resumeUpload.
    destruct (nth_error (uploads s) n) as [t|]; [|exact Hu].
    destruct (phase t); destruct ev as [d| | |r|]; try destruct r;
      cbn; rewrite ?Hu; auto.
Qed.

Lemma staging_run (es : list Event) :
  forall s,
    uploadedImages s = [] -> forallb noUpload es = true ->
    uploadedImages (run s es) = [].
Proof.
  induction es as [|e es IH]; intros s H Hq; [exact H|].
  cbn [forallb] in Hq. apply andb_prop in Hq as [Hq Hqs].
  rewrite run_cons. apply IH; [|exact Hqs]. now apply staging_step.
Qed.

(** [n] firings of a live progress interval. *)
Lemma ticks_progress (n : nat) :
  forall s,
    progressIntervals s <> 0%nat -> aiResponseProgress s <= 85 ->
    aiResponseProgress (run s (repeat ProgressTicked n))
    = Z.min (aiResponseProgress s + Z.of_nat n) 85.
Proof.
  induction n as [|n IH]; intros s Hi Hp.
  - cbn. lia.
  - cbn [repeat]. rewrite run_cons.
    assert (E : next s ProgressTicked
                = setAiResponseProgress (crawl (aiResponseProgress s)) s).
    { unfold next, step, progressTick.
      destruct (progressIntervals s); [contradiction|reflexivity]. }
    rewrite E, IH; cbn; auto using crawl_cap.
    unfold crawl. destruct (aiResponseProgress s >=? 85) eqn:C; lia.
Qed.

End MachineFacts.

(** ** The message log across a turn *)

Section TurnFacts.

Local Open Scope Z_scope.

Lemma scenario_ready_reachable : reachable Scenario.ready.
Proof. apply reachable_run, reachable_initial. Qed.

Lemma singleton_log_breaks (m : Message) :
  isImageTurn m = true -> ~ analysisPrecedes [m].
Proof.
  intros Hm H.
  destruct (H [] m [] eq_refl Hm) as (before & a & E & _).
  now destruct before.
Qed.

(** C2, as stated, fails.  After the submission of a turn with one image
    the log holds the user message with nothing before it, both while the
    request is in flight and after the request has failed. *)
Lemma analysis_missing_until_success :
  (reachable Scenario.waiting
   /\ ~ analysisPrecedes (messages Scenario.waiting))
  /\ (reachable Scenario.failed
      /\ ~ analysisPrecedes (messages Scenario.failed)).
Proof.
  split; split.
  - apply reachable_next, scenario_ready_reachable.
  - apply singleton_log_breaks. reflexivity.
  - do 2 apply reachable_next. apply scenario_ready_reachable.
  - apply singleton_log_breaks. reflexivity.
Qed.

(** The log after a successful answer to a turn with images. *)
Lemma log_after_success (s : State) (during : list Event)
    (assistantMessage : Message) :
  submitBlocked s = false ->
  uploadedImages s <> [] ->
  forallb quiet during = true ->
  messages
    (next (run (next s FormSubmitted) during)
       (ChatReplied (ReplyOk assistantMessage)))
  = messages s
      ++ [ analysisMsg (uploadedImages s);
           userMessageForDisplay (trim (input s)) (uploadedImages s);
           assistantMessage ].
Proof.
  intros Hs Hi Hq.
  pose proof (awaiting_run during (submit_awaiting s Hs) Hq) as Hw.
  destruct (next_reply_ok assistantMessage Hw) as (Hm & _).
  rewrite Hm. unfold applyResponse.
  destruct (uploadedImages s) as [|img imgs] eqn:E; [contradiction|].
  cbn [List.length Nat.ltb Nat.leb].
  rewrite rev_app_distr. cbn [rev app]. rewrite rev_involutive.
  now rewrite <- app_assoc.
Qed.

(** C4, as stated, fails for the empty error text: the generic message is
    shown in its place. *)
Lemma empty_error_text_replaced :
  let s :=
    run initial
      [ InputChanged (lit "Hello"); FormSubmitted;
        ChatReplied (ReplyError (Some [])) ] in
  error s = Some (lit "Failed to get response") /\ error s <> Some [].
Proof.
  split; [reflexivity | discriminate].
Qed.

(** C4, amended.  When the completion call answers non-2xx with a body
    whose [error] is a non-empty text, the component ends the wait with
    exactly that text as its error, keeps the optimistically appended user
    message at the end of the log, and has progress 0. *)
Theorem failed_reply_sets_error (s : State) (during : list Event)
    (text : jsstring) :
  submitBlocked s = false ->
  forallb quiet during = true ->
  text <> [] ->
  let s' :=
    next (run (next s FormSubmitted) during)
      (ChatReplied (ReplyError (Some text))) in
  error s' = Some text
  /\ isLoading s' = false
  /\ messages s'
     = messages s
         ++ [userMessageForDisplay (trim (input s)) (uploadedImages s)]
  /\ aiResponseProgress s' = 0.
Proof.
  intros Hs Hq Ht.
  pose proof (awaiting_run during (submit_awaiting s Hs) Hq) as Hw.
  destruct (@next_reply_failed _ _ _ (ReplyError (Some text)) Hw)
    as (Hm & Hp & Hl & _ & He); [intros m; discriminate|].
  cbn zeta. rewrite Hm, Hp, Hl, He.
  destruct text; [contradiction|]. repeat split; reflexivity.
Qed.

Lemma failed_reply_sets_error_witness :
  error Scenario.failed = Some (lit "rate limited")
  /\ aiResponseProgress Scenario.failed = 0.
Proof.
  destruct (@failed_reply_sets_error Scenario.ready [] (lit "rate limited")
              eq_refl eq_refl ltac:(discriminate))
    as (He & _ & _ & Hp).
  split; [exact He | exact Hp].
Defined.

(** C7, as stated, fails.  The reset that a successful answer schedules
    for one second later is never cancelled: when the next turn is
    submitted within that second, the reset fires while the new request is
    in flight and takes the progress value from 26 back to 0, from where
    the timer goes on to 1. *)
Lemma stale_reset_lowers_progress :
  let first :=
    run initial
      [ InputChanged (lit "Hello"); FormSubmitted;
        ChatReplied (ReplyOk Scenario.reply) ] in
  let second :=
    run first [InputChanged (lit "And?"); FormSubmitted; ProgressTicked] in
  reachable (run second [ProgressResetFired; ProgressTicked])
  /\ isLoading second = true
  /\ aiResponseProgress second = 26
  /\ isLoading (next second ProgressResetFired) = true
  /\ pendingSubmit (next second ProgressResetFired) = Some []
  /\ aiResponseProgress (next second ProgressResetFired) = 0
  /\ aiResponseProgress (run second [ProgressResetFired; ProgressTicked])
     = 1.
Proof.
  cbn zeta. split; [|repeat split; reflexivity].
  do 3 apply reachable_run. apply reachable_initial.
Qed.

(** C7, amended.  After an accepted submission the progress value starts at
    25 and each firing of the interval adds one until 85 is reached, where
    it stays; whatever else happens before the answer, a firing never
    lowers the value and the value never exceeds 85.  A successful answer
    sets it to 100 and the scheduled reset then sets it to 0; a failed
    answer, of either kind, sets it to 0.  When no reset of an earlier turn
    is outstanding at the submission, the value never decreases before the
    answer. *)
Theorem progress_crawl_capped (s : State) (ticks : nat)
    (during : list Event) (assistantMessage : Message) :
  submitBlocked s = false ->
  forallb quiet during = true ->
  let submitted := next s FormSubmitted in
  let waiting := run submitted during in
  let answered := next waiting (ChatReplied (ReplyOk assistantMessage)) in
  aiResponseProgress (run submitted (repeat ProgressTicked ticks))
  = Z.min (25 + Z.of_nat ticks) 85
  /\ aiResponseProgress waiting
     <= aiResponseProgress (next waiting ProgressTicked)
  /\ aiResponseProgress waiting <= 85
  /\ aiResponseProgress (next waiting ProgressTicked) < 100
  /\ aiResponseProgress answered = 100
  /\ aiResponseProgress (next answered ProgressResetFired) = 0
  /\ (forall data_error,
        aiResponseProgress
          (next waiting (ChatReplied (ReplyError data_error))) = 0)
  /\ (forall message,
        aiResponseProgress
          (next waiting (ChatReplied (ReplyRejected message))) = 0)
  /\ (progressResets s = 0%nat ->
      forall before after,
        during = before ++ after ->
        aiResponseProgress submitted = 25
        /\ aiResponseProgress (run submitted before)
           <= aiResponseProgress waiting).
Proof.
  intros Hs Hq. cbn zeta.
  pose proof (submit_awaiting s Hs) as H0.
  pose proof (awaiting_run during H0 Hq) as Hw.
  pose proof (awaiting_step ProgressTicked Hw eq_refl) as Ht.
  split; [|split; [|split; [|split; [|split; [|split; [|split; [|split]]]]]]].
  - rewrite ticks_progress.
    + unfold next, step. now rewrite (handleSubmit_accepted s Hs).
    + unfold next, step. now rewrite (handleSubmit_accepted s Hs).
    + apply (aw_progress H0).
  - unfold next, step, progressTick.
    destruct (progressIntervals _); cbn; [lia | apply crawl_le].
  - apply (aw_progress Hw).
  - pose proof (aw_progress Ht). lia.
  - now destruct (next_reply_ok assistantMessage Hw) as (_ & Hp & _).
  - destruct (next_reply_ok assistantMessage Hw) as (_ & _ & Hr & _).
    unfold next at 1. unfold step, progressReset. rewrite Hr. reflexivity.
  - intro e.
    now destruct (@next_reply_failed _ _ _ (ReplyError e) Hw)
      as (_ & Hp & _); [intros m; discriminate|].
  - intro msg.
    now destruct (@next_reply_failed _ _ _ (ReplyRejected msg) Hw)
      as (_ & Hp & _); [intros m; discriminate|].
  - intros Hr before after ->.
    assert (R0 : progressResets (next s FormSubmitted) = 0%nat).
    { unfold next, step. now rewrite (handleSubmit_accepted s Hs). }
    split.
    { unfold next, step. now rewrite (handleSubmit_accepted s Hs). }
    rewrite forallb_app in Hq. apply andb_prop in Hq as [Hb Ha].
    rewrite run_app.
    destruct (steady_run before H0 R0 Hb) as [Rb _].
    now destruct (steady_run after (awaiting_run before H0 Hb) Rb Ha).
Qed.

Lemma progress_crawl_capped_witness :
  aiResponseProgress
    (run (next Scenario.ready FormSubmitted) (repeat ProgressTicked 200))
  = 85
  /\ aiResponseProgress
       (next
          (run (next Scenario.ready FormSubmitted)
             [ProgressTicked; ProgressResetFired; ProgressTicked])
          (ChatReplied (ReplyOk Scenario.reply))) = 100
  /\ aiResponseProgress
       (run (next Scenario.ready FormSubmitted) [ProgressTicked])
     <= aiResponseProgress
          (run (next Scenario.ready FormSubmitted)
             [ProgressTicked; ProgressResetFired; ProgressTicked]).
Proof.
  destruct (@progress_crawl_capped Scenario.ready 200
              [ProgressTicked; ProgressResetFired; ProgressTicked]
              Scenario.reply eq_refl eq_refl)
    as (Hn & _ & _ & _ & Ha & _ & _ & _ & Hm).
  split; [exact Hn|]. split; [exact Ha|].
  exact (proj2 (Hm eq_refl [ProgressTicked]
                  [ProgressResetFired; ProgressTicked] eq_refl)).
Defined.

(** C9.  An accepted submission leaves the text field and the staging area
    empty in the very state that issues the request, and its staged images
    are the images of the appended user message.  The staging area is then
    empty for the rest of the turn and after either outcome, and it stays
    empty until a new file reaches the upload handler: the submitted
    attachments never come back to be submitted again. *)
Theorem submit_clears_staging (s : State) (during after : list Event)
    (reply : ChatReply) :
  submitBlocked s = false ->
  forallb quiet during = true ->
  forallb noUpload after = true ->
  let submitted := next s FormSubmitted in
  let settled := next (run submitted during) (ChatReplied reply) in
  input submitted = []
  /\ uploadedImages submitted = []
  /\ messages submitted
     = messages s
         ++ [mkMessage user (trim (input s)) (Some (uploadedImages s))]
  /\ (exists context,
        snd (step s FormSubmitted) = [FetchChat context (selectedModel s)])
  /\ uploadedImages (run submitted during) = []
  /\ uploadedImages settled = []
  /\ uploadedImages (run settled after) = [].
Proof.
  intros Hs Hq Ha. cbn zeta.
  pose proof (submit_awaiting s Hs) as H0.
  pose proof (awaiting_run during H0 Hq) as Hw.
  assert (Hset : uploadedImages
                   (next (run (next s FormSubmitted) during)
                      (ChatReplied reply)) = []).
  { destruct reply as [m|e|msg].
    - now destruct (next_reply_ok m Hw) as (_ & _ & _ & Hu & _).
    - now destruct (@next_reply_failed _ _ _ (ReplyError e) Hw)
        as (_ & _ & _ & Hu & _); [intros m; discriminate|].
    - now destruct (@next_reply_failed _ _ _ (ReplyRejected msg) Hw)
        as (_ & _ & _ & Hu & _); [intros m; discriminate|]. }
  split; [apply (aw_input H0)|].
  split; [apply (aw_staged H0)|].
  split; [apply (aw_log H0)|].
  split.
  { cbn [step]. rewrite (handleSubmit_accepted s Hs). eexists. reflexivity. }
  split; [apply (aw_staged Hw)|].
  split; [exact Hset|].
  now apply staging_run.
Qed.

Lemma submit_clears_staging_witness :
  uploadedImages Scenario.ready <> []
  /\ uploadedImages (next Scenario.ready FormSubmitted) = []
  /\ uploadedImages
       (run
          (next (run (next Scenario.ready FormSubmitted) [])
             (ChatReplied (ReplyError (Some (lit "rate limited")))))
          [FormSubmitted]) = [].
Proof.
  destruct (@submit_clears_staging Scenario.ready [] [FormSubmitted]
              (ReplyError (Some (lit "rate limited")))
              eq_refl eq_refl eq_refl)
    as (_ & Hu & _ & _ & _ & _ & Ha).
  split; [discriminate|]. split; [exact Hu | exact Ha].
Defined.

End TurnFacts.

(** ** The two analysis texts *)

Section AnalysisFacts.

(** The persisted text goes on with the word "images" where the outbound
    text goes on with the image count. *)
Lemma analysis_texts_differ (imgs : list ImageData) :
  content (analysisMsg imgs) <> content (analysisMessage imgs).
Proof.
  unfold analysisMsg, analysisMessage. cbn [content].
  change (lit "[CONTEXT: IMAGE ANALYSIS] The user has provided images. Here is the detailed analysis:")
    with (lit "[CONTEXT: IMAGE ANALYSIS] The user has provided "
            ++ lit "images. Here is the detailed analysis:").
  rewrite <- app_assoc. intro H. apply app_inv_head in H.
  destruct (number_to_string_head (List.length imgs)) as (c & rest & E & D).
  rewrite E in H. cbn in H. injection H as Hc _. subst c. discriminate D.
Qed.

(** C10.  For a turn submitted with at least one image and answered
    successfully: the outbound context carries the outbound analysis
    message, the log receives the persisted one, the two texts differ, and
    every context assembled from the log afterwards carries the persisted
    text. *)
Theorem persisted_analysis_differs (s : State) (during : list Event)
    (assistantMessage : Message) :
  submitBlocked s = false ->
  uploadedImages s <> [] ->
  forallb quiet during = true ->
  let imgs := uploadedImages s in
  let answered :=
    next (run (next s FormSubmitted) during)
      (ChatReplied (ReplyOk assistantMessage)) in
  (exists context,
     snd (handleSubmit s) = [FetchChat context (selectedModel s)]
     /\ In (sanitize (analysisMessage imgs)) context)
  /\ In (analysisMsg imgs) (messages answered)
  /\ content (analysisMsg imgs) <> content (analysisMessage imgs)
  /\ (forall text' imgs',
        In (sanitize (analysisMsg imgs))
           (finalContext (messages answered) (internalSummary answered)
              text' imgs')).
Proof.
  intros Hs Hi Hq. cbn zeta.
  pose proof (log_after_success s during assistantMessage
                Hs Hi Hq) as Hm.
  split.
  { eexists. rewrite (handleSubmit_accepted s Hs). split; [reflexivity|].
    unfold finalContext, contextSource, newMessagesToAdd.
    apply in_map. destruct (uploadedImages s); [contradiction|].
    cbn [List.length Nat.ltb Nat.leb].
    apply in_or_app; right. apply in_or_app; right.
    apply in_or_app; right. apply in_or_app; left. now left. }
  split.
  { rewrite Hm. apply in_or_app; right. now left. }
  split; [apply analysis_texts_differ|].
  intros text' imgs'. unfold finalContext, contextSource.
  apply in_map. rewrite Hm.
  apply in_or_app; right. apply in_or_app; right.
  apply in_or_app; left. apply in_or_app; right. now left.
Qed.

Lemma persisted_analysis_differs_witness :
  In (analysisMsg (uploadedImages Scenario.ready))
     (messages Scenario.answered)
  /\ content (analysisMsg (uploadedImages Scenario.ready))
     <> content (analysisMessage (uploadedImages Scenario.ready)).
Proof.
  destruct (@persisted_analysis_differs Scenario.ready [] Scenario.reply
              eq_refl ltac:(discriminate) eq_refl)
    as (_ & Hin & Hne & _).
  split; [exact Hin | exact Hne].
Defined.

End AnalysisFacts.

(** ** The upload pipeline *)

Section UploadFacts.

Local Open Scope Z_scope.

Lemma jseqb_refl (a : jsstring) : jseqb a a = true.
Proof. unfold jseqb. now destruct (jsstring_eq_dec a a). Qed.

Lemma hasId_true (imageId : jsstring) (img : ImageData) :
  id img = Some imageId -> hasId imageId img = true.
Proof. intro H. unfold hasId. rewrite H. apply jseqb_refl. Qed.

Lemma hasId_false (imageId : jsstring) (img : ImageData) :
  id img <> Some imageId -> hasId imageId img = false.
Proof.
  intro H. unfold hasId, jseqb. destruct (id img) as [i|]; [|reflexivity].
  destruct (jsstring_eq_dec i imageId); [|reflexivity]. now subst.
Qed.

Lemma updateImages_app (imageId : jsstring) (u : ImageUpdates)
    (l l' : list ImageData) :
  updateImages imageId u (l ++ l')
  = updateImages imageId u l ++ updateImages imageId u l'.
Proof. apply map_app. Qed.

Lemma updateImages_others (imageId : jsstring) (u : ImageUpdates)
    (l : list ImageData) :
  ~ In (Some imageId) (map id l) -> updateImages imageId u l = l.
Proof.
  induction l as [|x l IH]; intro H; [reflexivity|].
  cbn in *. rewrite hasId_false by tauto. f_equal. apply IH. tauto.
Qed.

(** C5.  A file that is larger than 10 MiB or whose type does not start
    with "image/" only sets an error message: the staging area and the
    suspended uploads are untouched and no request of any kind is issued.
    A file of an image type of at most 10 MiB passes: one attachment in the
    uploading state is staged under the new id and the file read is
    started. *)
Theorem upload_validation (s : State) (file : File) (random36 : jsstring) :
  (file_size file > 10 * 1024 * 1024
   \/ startsWith (file_type file) (lit "image/") = false ->
   exists message,
     message <> []
     /\ handleImageUpload file random36 s = (setError (Some message) s, [])
     /\ uploadedImages (fst (handleImageUpload file random36 s))
        = uploadedImages s
     /\ uploads (fst (handleImageUpload file random36 s)) = uploads s
     /\ snd (step s (FileChosen file random36)) = []
     /\ uploadedImages (next s (FileChosen file random36))
        = uploadedImages s)
  /\ (file_size file <= 10 * 1024 * 1024 ->
      startsWith (file_type file) (lit "image/") = true ->
      let s' := fst (handleImageUpload file random36 s) in
      snd (handleImageUpload file random36 s) = [ReadFile file]
      /\ List.length (uploadedImages s')
         = S (List.length (uploadedImages s))
      /\ exists img,
           In img (uploadedImages s')
           /\ id img = Some (substring_from 7 random36)
           /\ isUploading img = Some true).
Proof.
  split.
  - intro H.
    assert (E : exists message,
               message <> []
               /\ handleImageUpload file random36 s
                  = (setError (Some message) s, [])).
    { unfold handleImageUpload.
      destruct (startsWith (file_type file) (lit "image/")) eqn:T; cbn [negb].
      - destruct H as [H|H]; [|discriminate H].
        apply Z.gtb_gt in H. rewrite H.
        eexists. split; [|reflexivity]. discriminate.
      - eexists. split; [|reflexivity]. discriminate. }
    destruct E as (message & Hn & E). exists message.
    split; [exact Hn|]. split; [exact E|].
    unfold next. cbn [step]. rewrite E.
    destruct (isLoading s); repeat split; reflexivity.
  - intros Hsize Htype. unfold handleImageUpload.
    rewrite Htype. cbn [negb].
    destruct (file_size file >? 10 * 1024 * 1024) eqn:G;
      [apply Z.gtb_gt in G; lia|].
    cbn -[updateImages]. split; [reflexivity|].
    rewrite updateImages_app. split.
    + unfold updateImages. rewrite length_app, !length_map.
      cbn. lia.
    + eexists. split.
      * apply in_or_app; right. cbn. left. reflexivity.
      * rewrite jseqb_refl. split; reflexivity.
Qed.

Lemma upload_validation_witness :
  error (fst (handleImageUpload Scenario.archive (lit "0.4fzyo82mvyr")
                initial))
  <> None
  /\ error (fst (handleImageUpload Scenario.poster (lit "0.4fzyo82mvyr")
                   initial))
     <> None
  /\ snd (handleImageUpload Scenario.photo (lit "0.4fzyo82mvyr") initial)
     = [ReadFile Scenario.photo].
Proof.
  destruct (upload_validation initial Scenario.archive (lit "0.4fzyo82mvyr"))
    as (Ha & _).
  destruct (upload_validation initial Scenario.poster (lit "0.4fzyo82mvyr"))
    as (Hp & _).
  destruct (upload_validation initial Scenario.photo (lit "0.4fzyo82mvyr"))
    as (_ & Hv).
  destruct (Ha (or_intror eq_refl)) as (ma & _ & Ea & _).
  destruct (Hp (or_introl eq_refl)) as (mp & _ & Ep & _).
  destruct (Hv ltac:(discriminate) eq_refl) as (Hr & _).
  rewrite Ea, Ep.
  split; [cbn; discriminate|]. split; [cbn; discriminate | exact Hr].
Defined.

(** C8, as stated, fails.  The random numbers 0.5 and 0.25 give two
    attachments with the same (empty) id, and the update meant for the
    first upload rewrites both. *)
Lemma attachment_ids_can_collide :
  reachable Scenario.twins
  /\ map id (uploadedImages Scenario.twins) = [Some []; Some []]
  /\ map url
       (uploadedImages
          (next Scenario.twins
             (UploadResumed 0 (FileLoaded (lit "data:image/png;base64,AA")))))
     = [lit "data:image/png;base64,AA"; lit "data:image/png;base64,AA"].
Proof.
  split; [apply reachable_run, reachable_initial|].
  split; reflexivity.
Qed.

(** C8, amended.  When the ids of the staged attachments are pairwise
    distinct, an update by id rewrites the one attachment that carries the
    id and leaves every other attachment as it is. *)
Theorem update_by_distinct_id (imgs : list ImageData) (k : nat)
    (img : ImageData) (imageId : jsstring) (updates : ImageUpdates) :
  NoDup (map id imgs) ->
  nth_error imgs k = Some img ->
  id img = Some imageId ->
  updateImages imageId updates imgs
  = firstn k imgs ++ [spread img updates] ++ skipn (S k) imgs.
Proof.
  revert k. induction imgs as [|x imgs IH]; intros k Hd Hk Hi.
  - destruct k; discriminate Hk.
  - cbn [map] in Hd. inversion Hd as [|? ? Hx Hd']; subst.
    destruct k as [|k]; cbn in Hk.
    + injection Hk as ->. cbn. rewrite (hasId_true _ Hi).
      f_equal. apply updateImages_others. now rewrite <- Hi.
    + cbn [firstn skipn app]. cbn [updateImages map].
      rewrite hasId_false.
      * f_equal. now apply IH.
      * intro Hxid. apply Hx. rewrite Hxid, <- Hi.
        apply in_map. eapply nth_error_In; eauto.
Qed.

Lemma update_by_distinct_id_witness :
  map id (uploadedImages Scenario.pair)
  = [Some (lit "82mvyr"); Some (lit "1q7d2a")]
  /\ updateImages (lit "1q7d2a") (feedback 40 "Analyzing Image...")
       (uploadedImages Scenario.pair)
     = [ nth 0 (uploadedImages Scenario.pair) Scenario.blank;
         spread (nth 1 (uploadedImages Scenario.pair) Scenario.blank)
           (feedback 40 "Analyzing Image...") ]
  /\ updateImages (lit "82mvyr") (feedback 40 "Analyzing Image...")
       (uploadedImages Scenario.pair)
     = [ spread (nth 0 (uploadedImages Scenario.pair) Scenario.blank)
           (feedback 40 "Analyzing Image...");
         nth 1 (uploadedImages Scenario.pair) Scenario.blank ].
Proof.
  assert (D : NoDup (map id (uploadedImages Scenario.pair))).
  { repeat constructor; cbn; intuition discriminate. }
  split; [reflexivity|]. split.
  - exact (@update_by_distinct_id (uploadedImages Scenario.pair) 1
             (nth 1 (uploadedImages Scenario.pair) Scenario.blank)
             (lit "1q7d2a") (feedback 40 "Analyzing Image...")
             D eq_refl eq_refl).
  - exact (@update_by_distinct_id (uploadedImages Scenario.pair) 0
             (nth 0 (uploadedImages Scenario.pair) Scenario.blank)
             (lit "82mvyr") (feedback 40 "Analyzing Image...")
             D eq_refl eq_refl).
Defined.

(** An upload whose id is not yet staged keeps the ids distinct. *)
Lemma fresh_id_keeps_distinct (s : State) (file : File)
    (random36 : jsstring) :
  NoDup (map id (uploadedImages s)) ->
  ~ In (Some (substring_from 7 random36)) (map id (uploadedImages s)) ->
  NoDup (map id (uploadedImages (fst (handleImageUpload file random36 s)))).
Proof.
  intros Hd Hf. unfold handleImageUpload.
  destruct (negb _); [exact Hd|].
  destruct (_ >? _); [exact Hd|].
  cbn -[updateImages].
  rewrite updateImages_app, (updateImages_others _ _ _ Hf).
  cbn. rewrite jseqb_refl. rewrite map_app. cbn.
  apply NoDup_app; [exact Hd | repeat constructor; intros [] |].
  intros a Ha [<-|[]]. exact (Hf Ha).
Qed.

End UploadFacts.

(** ** The math-notation normalizer *)

Section NormalizerFacts.

Local Open Scope N_scope.


(** *** Texts without a backslash *)

Lemma rmatch_needs_head (c : N) (r : regex) :
  startsWithChr c r = true ->
  forall s cap k,
    (forall x s', s = x :: s' -> x <> c) ->
    rmatch r s cap k = None.
Proof.
  induction r as [c'|p|g p|g p|r1 IH1 r2 IH2|r1 IH1]; cbn [startsWithChr];
    intros H s cap k Hs; try discriminate H.
  - apply N.eqb_eq in H. subst c'. cbn. destruct s as [|x s']; [reflexivity|].
    destruct (x =? c) eqn:E; [|reflexivity].
    apply N.eqb_eq in E. now destruct (Hs x s' eq_refl).
  - cbn. now apply IH1.
  - cbn. now apply IH1.
Qed.

Lemma no_head (c : N) (s : jsstring) :
  ~ In c s -> forall x s', s = x :: s' -> x <> c.
Proof. intros H x s' -> ->. apply H. now left. Qed.

Lemma star_greedy_none (c : N) (p : N -> bool)
    (k : jsstring -> option match_result) :
  (forall u, ~ In c u -> k u = None) ->
  forall s, ~ In c s -> star_greedy p s k = None.
Proof.
  intros Hk. induction s as [|x s IH]; intro Hs; cbn.
  - now apply Hk.
  - destruct (p x).
    + rewrite IH; [now apply Hk|]. intro; apply Hs; now right.
    + now apply Hk.
Qed.

Lemma replace_all_unmatched (r : regex) (tpl : jsstring) (c : N) :
  (forall t, ~ In c t -> exec r t = None) ->
  forall s, ~ In c s -> replace_all r tpl s = s.
Proof.
  intros Hr. unfold replace_all.
  induction s as [|x s IH]; intro Hs; cbn [replace_from].
  - now rewrite Hr.
  - rewrite (Hr _ Hs). f_equal. apply IH. intro; apply Hs; now right.
Qed.

Lemma exec_needs_head (r : regex) (c : N) :
  startsWithChr c r = true -> forall t, ~ In c t -> exec r t = None.
Proof.
  intros H t Ht. unfold exec. apply (@rmatch_needs_head c r H).
  now apply no_head.
Qed.

Lemma exec_bare_needs_backslash (t : jsstring) :
  ~ In 92 t -> exec re_bare t = None.
Proof.
  intro Ht. unfold exec, re_bare. cbn [seqs rmatch].
  destruct t as [|x t]; [reflexivity|].
  destruct (x =? 91); [|reflexivity].
  unfold star.
  apply (@star_greedy_none 92).
  - intros u Hu. destruct u as [|y u]; [reflexivity|].
    destruct (y =? 92) eqn:E; [|reflexivity].
    apply N.eqb_eq in E. subst y. exfalso. apply Hu. now left.
  - intro; apply Ht; now right.
Qed.

(** Every pattern of the normalizer needs a backslash: a text without one
    is returned as it is. *)
Lemma no_backslash_unchanged (s : jsstring) :
  ~ In backslash s ->
  delimiter_rewrites s = s /\ typo_patches s = s /\ formatMathContent s = s.
Proof.
  unfold backslash. intro Hs.
  assert (Hd : delimiter_rewrites s = s).
  { unfold delimiter_rewrites.
    rewrite (@replace_all_unmatched re_inline _ 92 (@exec_needs_head re_inline 92 eq_refl))
      by exact Hs.
    rewrite (@replace_all_unmatched re_block _ 92 (@exec_needs_head re_block 92 eq_refl))
      by exact Hs.
    now rewrite (@replace_all_unmatched re_bare _ 92 exec_bare_needs_backslash). }
  assert (Ht : typo_patches s = s).
  { unfold typo_patches.
    rewrite (@replace_all_unmatched re_partial _ 92 (@exec_needs_head re_partial 92 eq_refl)) by exact Hs.
    rewrite (@replace_all_unmatched re_delta _ 92 (@exec_needs_head re_delta 92 eq_refl)) by exact Hs.
    rewrite (@replace_all_unmatched re_phi _ 92 (@exec_needs_head re_phi 92 eq_refl)) by exact Hs.
    now rewrite (@replace_all_unmatched re_frac _ 92 (@exec_needs_head re_frac 92 eq_refl)). }
  split; [exact Hd|]. split; [exact Ht|].
  unfold formatMathContent. destruct (is_empty s); [reflexivity|].
  now rewrite Hd, Ht.
Qed.

(** *** Matches of the typo patterns, in closed form *)










(** *** Replacement, match by match *)





(** *** Patterns that stay between two backslashes *)
















(** *** The typo patches, body by body *)













(** *** Texts without an opening delimiter *)

















End NormalizerFacts.

(** * Further properties of the component *)

(** ** The submit guard *)

Section GuardFacts.

Lemma drop_space_nil (s : jsstring) :
  drop_space s = [] <-> Forall (fun c => is_space c = true) s.
Proof.
  induction s as [|c s IH]; cbn.
  - split; [constructor | reflexivity].
  - destruct (is_space c) eqn:E.
    + rewrite IH. split; [now constructor | now inversion 1].
    + split; [discriminate|]. inversion 1; congruence.
Qed.

Lemma drop_space_head (s : jsstring) :
  drop_space s = []
  \/ exists c t, drop_space s = c :: t /\ is_space c = false.
Proof.
  induction s as [|c s IH]; cbn; [now left|].
  destruct (is_space c) eqn:E; [exact IH|].
  right. now exists c, s.
Qed.

Lemma trim_nil (s : jsstring) :
  trim s = [] <-> Forall (fun c => is_space c = true) s.
Proof.
  unfold trim. split.
  - intro H. apply (f_equal (@rev N)) in H. rewrite rev_involutive in H.
    cbn in H. apply drop_space_nil in H. apply Forall_rev in H.
    rewrite rev_involutive in H.
    destruct (drop_space_head s) as [E|(c & t & E & Hc)].
    + now apply drop_space_nil.
    + rewrite E in H. inversion H; congruence.
  - intro H. apply drop_space_nil in H. now rewrite H.
Qed.

(** A submission does nothing, and asks for nothing, exactly when a request
    is in flight, or an attachment is still uploading, or the text field
    holds only white space while nothing is staged.  Otherwise it issues
    one completion request. *)
Theorem submit_ignored_iff (s : State) :
  (handleSubmit s = (s, [])
   <-> isLoading s = true
       \/ isProcessingImage s = true
       \/ (Forall (fun c => is_space c = true) (input s)
           /\ uploadedImages s = []))
  /\ (handleSubmit s <> (s, []) ->
      exists context, snd (handleSubmit s) = [FetchChat context (selectedModel s)]).
Proof.
  assert (B : submitBlocked s = true
              <-> isLoading s = true
                  \/ isProcessingImage s = true
                  \/ (Forall (fun c => is_space c = true) (input s)
                      /\ uploadedImages s = [])).
  { unfold submitBlocked. rewrite !orb_true_iff, andb_true_iff.
    assert (E : is_empty (trim (input s)) = true <-> trim (input s) = [])
      by (destruct (trim (input s)); cbn; split; congruence).
    rewrite E, trim_nil, Nat.eqb_eq, length_zero_iff_nil. tauto. }
  split.
  - rewrite <- B. split.
    + intro H. destruct (submitBlocked s) eqn:G; [reflexivity|].
      rewrite (handleSubmit_accepted s G) in H. discriminate H.
    + apply handleSubmit_blocked.
  - intro H. destruct (submitBlocked s) eqn:G.
    + now rewrite (handleSubmit_blocked s G) in H.
    + rewrite (handleSubmit_accepted s G). eexists. reflexivity.
Qed.

End GuardFacts.

(** ** Invariants of the reachable states *)

Section InvariantFacts.

Lemma summary_step (s : State) (e : Event) :
  internalSummary s = None -> internalSummary (next s e) = None.
Proof.
  intro H. unfold next, step.
  destruct e as [v|m| |r| | | |f r|i|n ev].
  - now destruct (isLoading s).
  - exact H.
  - unfold handleSubmit. now destruct (submitBlocked s).
  - unfold resumeSubmit. destruct (pendingSubmit s); [|exact H].
    now destruct r.
  - unfold progressTick. now destruct (progressIntervals s).
  - unfold progressReset. now destruct (progressResets s).
  - now destruct (isLoading s).
  - destruct (isLoading s); [exact H|]. unfold handleImageUpload.
    destruct (negb _); [exact H|]. now destruct (_ >? _)%Z.
  - destruct (nth_error (uploadedImages s) i) as [img|]; [|exact H].
    now destruct (truthy (isUploading img)).
  - unfold resumeUpload.
    destruct (nth_error (uploads s) n) as [t|]; [|exact H].
    destruct (phase t); destruct ev as [d| | |r|]; try destruct r;
      exact H.
Qed.

(** The carried summary is dormant: no reachable state holds one, so every
    context the component assembles is the persona message followed by the
    log and the new messages, never with a summary in between. *)
Theorem summary_never_carried (s : State) :
  reachable s ->
  internalSummary s = None
  /\ forall currentInput currentImages,
       finalContext (messages s) (internalSummary s) currentInput
         currentImages
       = sanitize baseSystemMessage
           :: map sanitize
                (messages s ++ newMessagesToAdd currentInput currentImages).
Proof.
  intros [es <-].
  assert (H : internalSummary (run initial es) = None).
  { generalize initial (eq_refl : internalSummary initial = None).
    induction es as [|e es IH]; intros s0 H0; [exact H0|].
    rewrite run_cons. apply IH. now apply summary_step. }
  split; [exact H|]. intros text imgs.
  unfold finalContext, contextSource. now rewrite H.
Qed.

Lemma summary_never_carried_witness :
  internalSummary
    (run initial [InputChanged (lit "Hello"); FormSubmitted]) = None.
Proof.
  exact (proj1
           (@summary_never_carried
              (run initial [InputChanged (lit "Hello"); FormSubmitted])
              (ex_intro _ [InputChanged (lit "Hello"); FormSubmitted]
                 eq_refl))).
Defined.

Lemma loading_step (s : State) (e : Event) :
  loadingMatchesPending s -> loadingMatchesPending (next s e).
Proof.
  unfold loadingMatchesPending. intro H. unfold next, step.
  destruct e as [v|m| |r| | | |f r|i|n ev].
  - destruct (isLoading s) eqn:L; cbn; rewrite ?L; exact H.
  - exact H.
  - destruct (submitBlocked s) eqn:G.
    + now rewrite (handleSubmit_blocked s G).
    + rewrite (handleSubmit_accepted s G). cbn. split; congruence.
  - cbn [fst]. unfold resumeSubmit.
    destruct (pendingSubmit s) eqn:P; [|now rewrite P].
    destruct r; cbn; (split; [discriminate | intro X; now contradiction X]).
  - cbn [fst]. unfold progressTick.
    destruct (progressIntervals s); exact H.
  - cbn [fst]. unfold progressReset.
    destruct (progressResets s); exact H.
  - destruct (isLoading s) eqn:L; cbn; rewrite ?L; exact H.
  - destruct (isLoading s) eqn:L; [cbn; rewrite L; exact H|].
    unfold handleImageUpload.
    destruct (negb _); [cbn; rewrite L; exact H|].
    destruct (_ >? _)%Z; cbn; rewrite L; exact H.
  - destruct (nth_error (uploadedImages s) i) as [img|]; [|exact H].
    destruct (truthy (isUploading img)); exact H.
  - unfold resumeUpload.
    destruct (nth_error (uploads s) n) as [t|]; [|exact H].
    destruct (phase t); destruct ev as [d| | |r|]; try destruct r;
      exact H.
Qed.

(** The completion requests an event issues: one for an accepted submission
    while nothing is pending, none otherwise. *)
Lemma fetches_of_step (s : State) (e : Event) :
  loadingMatchesPending s ->
  List.length (filter isFetchChat (snd (step s e))) + pendingCount s
  <= (if isReply e then 1 else 0) + pendingCount (next s e).
Proof.
  unfold loadingMatchesPending, pendingCount. intro H. unfold next.
  destruct e as [v|m| |r| | | |f r|i|n ev]; cbn [step isReply].
  - destruct (isLoading s); cbn; lia.
  - cbn; lia.
  - destruct (submitBlocked s) eqn:G.
    + rewrite (handleSubmit_blocked s G). cbn. lia.
    + rewrite (handleSubmit_accepted s G). cbn.
      destruct (pendingSubmit s) eqn:P; [|lia].
      exfalso. unfold submitBlocked in G.
      assert (L : isLoading s = true) by (apply H; congruence).
      rewrite L, orb_true_r in G. discriminate G.
  - cbn. unfold resumeSubmit. destruct (pendingSubmit s) eqn:P.
    + destruct r; cbn; lia.
    + rewrite P. lia.
  - cbn. unfold progressTick. destruct (progressIntervals s); cbn; lia.
  - cbn. unfold progressReset. destruct (progressResets s); cbn; lia.
  - destruct (isLoading s); cbn; lia.
  - destruct (isLoading s); [cbn; lia|]. unfold handleImageUpload.
    destruct (negb _); [cbn; lia|]. destruct (_ >? _)%Z; cbn; lia.
  - destruct (nth_error (uploadedImages s) i) as [img|]; [|cbn; lia].
    destruct (truthy (isUploading img)); cbn; lia.
  - unfold resumeUpload.
    destruct (nth_error (uploads s) n) as [t|]; [|cbn; lia].
    destruct (phase t); destruct ev as [d| | |r|]; try destruct r;
      cbn; lia.
Qed.

Lemma fetches_of_run (es : list Event) :
  forall s,
    loadingMatchesPending s ->
    List.length (filter isFetchChat (requests s es)) + pendingCount s
    <= List.length (filter isReply es) + pendingCount (run s es).
Proof.
  induction es as [|e es IH]; intros s H; [cbn; lia|].
  rewrite run_cons. cbn [requests filter].
  rewrite filter_app, length_app.
  pose proof (fetches_of_step e H) as A.
  pose proof (IH (next s e) (loading_step e H)) as B.
  destruct (isReply e); cbn [List.length]; lia.
Qed.

(** At most one completion request is outstanding at any time: along every
    run from the initial state, the requests issued so far exceed the
    answers delivered so far by at most one, and not at all when no call is
    suspended; the loading flag is up exactly while one is suspended. *)
Theorem one_request_in_flight (es : list Event) :
  List.length (filter isFetchChat (requests initial es))
  <= S (List.length (filter isReply es))
  /\ (pendingSubmit (run initial es) = None ->
      List.length (filter isFetchChat (requests initial es))
      <= List.length (filter isReply es))
  /\ (isLoading (run initial es) = true
      <-> pendingSubmit (run initial es) <> None).
Proof.
  assert (H0 : loadingMatchesPending initial).
  { unfold loadingMatchesPending. cbn. split; [discriminate | congruence]. }
  pose proof (fetches_of_run es H0) as A. unfold pendingCount in A.
  cbn [initial pendingSubmit] in A.
  split; [|split].
  - destruct (pendingSubmit (run initial es)); lia.
  - intro P. rewrite P in A. lia.
  - assert (R : forall l s, loadingMatchesPending s ->
                  loadingMatchesPending (run s l)).
    { induction l as [|e l IH]; intros s H; [exact H|].
      rewrite run_cons. apply IH. now apply loading_step. }
    exact (R es initial H0).
Qed.

End InvariantFacts.

(** ** What is rendered and what is counted *)

Section ViewFacts.

Lemma reply_ok_log (s : State) (during : list Event) (m : Message) :
  submitBlocked s = false ->
  forallb quiet during = true ->
  messages
    (next (run (next s FormSubmitted) during) (ChatReplied (ReplyOk m)))
  = applyResponse
      (messages s
         ++ [userMessageForDisplay (trim (input s)) (uploadedImages s)])
      (uploadedImages s) m.
Proof.
  intros Hs Hq.
  pose proof (awaiting_run during (submit_awaiting s Hs) Hq) as Hw.
  now destruct (next_reply_ok m Hw) as (Hm & _).
Qed.

Lemma applyResponse_snoc (prior : list Message) (u m : Message)
    (imgs : list ImageData) :
  applyResponse (prior ++ [u]) imgs m
  = prior ++ (if (0 <? List.length imgs)%nat then [analysisMsg imgs] else [])
      ++ [u; m].
Proof.
  unfold applyResponse. destruct (0 <? List.length imgs)%nat.
  - rewrite rev_app_distr. cbn [rev app]. rewrite rev_involutive.
    now rewrite <- app_assoc.
  - now rewrite <- app_assoc.
Qed.

Lemma analysisMsg_hidden (imgs : list ImageData) :
  isRendered (analysisMsg imgs) = false.
Proof. reflexivity. Qed.

(** The analysis message that a successful turn adds to the log is never
    rendered: after the answer, the rendered list is the one of the log
    with just the user message and the answer appended. *)
Theorem analysis_never_rendered (s : State) (during : list Event)
    (assistantMessage : Message) :
  submitBlocked s = false ->
  forallb quiet during = true ->
  renderedMessages
    (messages
       (next (run (next s FormSubmitted) during)
          (ChatReplied (ReplyOk assistantMessage))))
  = renderedMessages
      (messages s
         ++ [ userMessageForDisplay (trim (input s)) (uploadedImages s);
              assistantMessage ]).
Proof.
  intros Hs Hq. rewrite (reply_ok_log s during assistantMessage Hs Hq).
  rewrite applyResponse_snoc. unfold renderedMessages.
  rewrite !filter_app. f_equal.
  destruct (0 <? List.length (uploadedImages s))%nat; [|reflexivity].
  cbn [filter]. now rewrite analysisMsg_hidden.
Qed.

Lemma analysis_never_rendered_witness :
  renderedMessages
    (messages
       (next (run (next Scenario.ready FormSubmitted) [])
          (ChatReplied (ReplyOk Scenario.reply))))
  = renderedMessages
      (messages Scenario.ready
         ++ [ userMessageForDisplay (trim (input Scenario.ready))
                (uploadedImages Scenario.ready);
              Scenario.reply ]).
Proof.
  exact (@analysis_never_rendered Scenario.ready [] Scenario.reply
           eq_refl eq_refl).
Defined.

(** The token estimate of a text is its length in units of four
    characters, rounded up: it never undercounts and overcounts by less
    than one unit; only the empty text is estimated at zero. *)
Theorem estimate_rounds_up (text : jsstring) :
  List.length text <= 4 * estimateTokens text
  /\ 4 * estimateTokens text < List.length text + 4
  /\ (estimateTokens text = 0 <-> text = []).
Proof.
  unfold estimateTokens. cbv zeta.
  pose proof (Nat.div_mod_eq (List.length text) 4) as D.
  pose proof (Nat.mod_upper_bound (List.length text) 4) as U.
  destruct (List.length text mod 4 =? 0) eqn:E.
  - apply Nat.eqb_eq in E. repeat split; try lia.
    + intro Z. apply length_zero_iff_nil. lia.
    + intros ->. reflexivity.
  - apply Nat.eqb_neq in E. repeat split; try lia.
    intros ->. cbn in E. congruence.
Qed.

Lemma currentTokens_from (l : list Message) :
  forall k,
    fold_left (fun total msg => total + estimateTokens (content msg)) l k
    = k + currentTokens l.
Proof.
  unfold currentTokens.
  induction l as [|m l IH]; intro k; cbn [fold_left]; [lia|].
  rewrite IH, (IH (0 + _)). lia.
Qed.

Lemma currentTokens_app (a b : list Message) :
  currentTokens (a ++ b) = currentTokens a + currentTokens b.
Proof.
  unfold currentTokens at 1. rewrite fold_left_app.
  rewrite currentTokens_from. reflexivity.
Qed.

(** The context-usage count runs over the whole log, hidden messages
    included: a successful turn with images raises it by the estimates of
    the analysis text, the user text and the answer. *)
Theorem usage_counts_hidden_analysis (s : State) (during : list Event)
    (assistantMessage : Message) :
  submitBlocked s = false ->
  uploadedImages s <> [] ->
  forallb quiet during = true ->
  currentTokens
    (messages
       (next (run (next s FormSubmitted) during)
          (ChatReplied (ReplyOk assistantMessage))))
  = currentTokens (messages s)
    + estimateTokens (content (analysisMsg (uploadedImages s)))
    + estimateTokens (trim (input s))
    + estimateTokens (content assistantMessage).
Proof.
  intros Hs Hi Hq. rewrite (reply_ok_log s during assistantMessage Hs Hq).
  rewrite applyResponse_snoc.
  destruct (uploadedImages s) as [|img imgs] eqn:E; [contradiction|].
  cbn [List.length Nat.ltb Nat.leb].
  rewrite !currentTokens_app. unfold currentTokens at 2 3.
  cbn [fold_left userMessageForDisplay content]. lia.
Qed.

Lemma usage_counts_hidden_analysis_witness :
  currentTokens
    (messages
       (next (run (next Scenario.ready FormSubmitted) [])
          (ChatReplied (ReplyOk Scenario.reply))))
  = currentTokens (messages Scenario.ready)
    + estimateTokens (content (analysisMsg (uploadedImages Scenario.ready)))
    + estimateTokens (trim (input Scenario.ready))
    + estimateTokens (content Scenario.reply).
Proof.
  exact (@usage_counts_hidden_analysis Scenario.ready [] Scenario.reply
           eq_refl ltac:(discriminate) eq_refl).
Defined.

End ViewFacts.

(** ** Answered image turns *)

Section AnsweredTurns.

Lemma answered_nil : analysisPrecedesAnswered [].
Proof. intros before m a after E. now destruct before. Qed.

Lemma answered_unsnoc (log : list Message) (u : Message) :
  analysisPrecedesAnswered (log ++ [u]) -> analysisPrecedesAnswered log.
Proof.
  intros H before m a after E.
  apply (H before m a (after ++ [u])). rewrite E.
  now rewrite <- app_assoc.
Qed.

(** The property has bite: an answered image turn at the head of the log
    breaks it. *)
Lemma answered_needs_analysis (text answer : jsstring) (img : ImageData)
    (imgs : list ImageData) :
  ~ analysisPrecedesAnswered
      [ userMessageForDisplay text (img :: imgs);
        mkMessage assistant answer None ].
Proof.
  intro H.
  destruct (H [] _ _ [] eq_refl eq_refl eq_refl) as (before & x & E & _).
  now destruct before.
Qed.

(** A message that is not an answer adds no answered turn. *)
Lemma answered_snoc_user (log : list Message) (u : Message) :
  role u = user ->
  analysisPrecedesAnswered log -> analysisPrecedesAnswered (log ++ [u]).
Proof.
  intros Hu H before m a after E Hm Ha.
  induction after as [|z after' _] using rev_ind.
  - change (before ++ [m; a]) with (before ++ [m] ++ [a]) in E.
    rewrite app_assoc in E. apply app_inj_tail in E as [_ ->].
    rewrite Hu in Ha. discriminate Ha.
  - replace (before ++ m :: a :: after' ++ [z])
      with ((before ++ m :: a :: after') ++ [z]) in E
      by now rewrite <- app_assoc.
    apply app_inj_tail in E as [E _]. exact (H _ _ _ _ E Hm Ha).
Qed.

(** The answer to the last message of the log. *)
Lemma answered_snoc_reply (log : list Message) (u m : Message) :
  analysisPrecedesAnswered (log ++ [u]) ->
  (isImageTurn u = true ->
   exists log' x, log = log' ++ [x] /\ isAnalysis x = true) ->
  analysisPrecedesAnswered (log ++ [u; m]).
Proof.
  intros H Hx before m0 a after E Hm Ha.
  induction after as [|z after' _] using rev_ind.
  - change (log ++ [u; m]) with (log ++ [u] ++ [m]) in E.
    change (before ++ [m0; a]) with (before ++ [m0] ++ [a]) in E.
    rewrite !app_assoc in E. apply app_inj_tail in E as [E _].
    apply app_inj_tail in E as [-> ->]. exact (Hx Hm).
  - change (log ++ [u; m]) with (log ++ [u] ++ [m]) in E.
    replace (before ++ m0 :: a :: after' ++ [z])
      with ((before ++ m0 :: a :: after') ++ [z]) in E
      by now rewrite <- app_assoc.
    rewrite app_assoc in E. apply app_inj_tail in E as [E _].
    exact (H _ _ _ _ E Hm Ha).
Qed.

(** The log after a successful answer, whatever the turn carried. *)
Lemma answered_applyResponse (log : list Message) (text : jsstring)
    (imgs : list ImageData) (m : Message) :
  analysisPrecedesAnswered (log ++ [userMessageForDisplay text imgs]) ->
  analysisPrecedesAnswered
    (applyResponse (log ++ [userMessageForDisplay text imgs]) imgs m).
Proof.
  intro H. rewrite applyResponse_snoc. destruct imgs as [|img imgs].
  - cbn [List.length Nat.ltb Nat.leb app].
    apply answered_snoc_reply; [exact H|]. intro X. discriminate X.
  - cbn [List.length Nat.ltb Nat.leb]. rewrite app_assoc.
    apply answered_snoc_reply.
    + apply answered_snoc_user; [reflexivity|].
      apply answered_snoc_user; [reflexivity|].
      now apply answered_unsnoc with (u := userMessageForDisplay text (img :: imgs)).
    + intros _. exists log, (analysisMsg (img :: imgs)).
      split; reflexivity.
Qed.

Lemma logInvariant_initial : logInvariant initial.
Proof.
  constructor.
  - apply answered_nil.
  - unfold loadingMatchesPending. cbn. split; [discriminate | congruence].
  - intros imgs X. discriminate X.
Qed.

Lemma logInvariant_step (s : State) (e : Event) :
  logInvariant s -> logInvariant (next s e).
Proof.
  intros [Ha Hl Hp].
  pose proof (@loading_step s e Hl) as Hl'.
  enough (K : analysisPrecedesAnswered (messages (next s e))
              /\ forall imgs,
                   pendingSubmit (next s e) = Some imgs ->
                   exists log text,
                     messages (next s e)
                     = log ++ [userMessageForDisplay text imgs])
    by (constructor; [apply K | exact Hl' | apply K]).
  clear Hl'.
  assert (Same : forall s',
             messages s' = messages s ->
             pendingSubmit s' = pendingSubmit s ->
             analysisPrecedesAnswered (messages s')
             /\ forall imgs,
                  pendingSubmit s' = Some imgs ->
                  exists log text,
                    messages s' = log ++ [userMessageForDisplay text imgs]).
  { intros s' -> ->. now split. }
  destruct e as [v|m| |r| | | |f r|i|n ev].
  - unfold next, step. destruct (isLoading s); now apply Same.
  - now apply Same.
  - destruct (submitBlocked s) eqn:G.
    + unfold next, step. rewrite (handleSubmit_blocked s G). now apply Same.
    + pose proof (submit_awaiting s G) as W. split.
      * rewrite (aw_log W). now apply answered_snoc_user.
      * intros imgs X. rewrite (aw_pending W) in X. injection X as <-.
        exists (messages s), (trim (input s)). apply (aw_log W).
  - unfold next, step. cbn [fst]. unfold resumeSubmit.
    destruct (pendingSubmit s) as [imgs|] eqn:P; [|now apply Same].
    destruct (Hp imgs eq_refl) as (log & text & E). rewrite E in Ha.
    destruct r as [m|e|msg]; cbn; rewrite ?E; split;
      try (intros ? X; discriminate X); try exact Ha.
    now apply answered_applyResponse.
  - unfold next, step, progressTick.
    destruct (progressIntervals s); now apply Same.
  - unfold next, step, progressReset.
    destruct (progressResets s); now apply Same.
  - unfold next, step. destruct (isLoading s) eqn:L; [now apply Same|].
    split; [apply answered_nil|]. intros imgs X. cbn in X.
    assert (T : isLoading s = true) by (apply Hl; congruence).
    congruence.
  - unfold next, step. destruct (isLoading s); [now apply Same|].
    unfold handleImageUpload. destruct (negb _); [now apply Same|].
    destruct (_ >? _)%Z; now apply Same.
  - unfold next, step.
    destruct (nth_error (uploadedImages s) i) as [img|]; [|now apply Same].
    destruct (truthy (isUploading img)); now apply Same.
  - unfold next, step, resumeUpload.
    destruct (nth_error (uploads s) n) as [t|]; [|now apply Same].
    destruct (phase t); destruct ev as [d| | |r|]; try destruct r;
      now apply Same.
Qed.

Lemma logInvariant_reachable (s : State) : reachable s -> logInvariant s.
Proof.
  intros [es <-].
  enough (R : forall l s0, logInvariant s0 -> logInvariant (run s0 l))
    by apply R, logInvariant_initial.
  induction l as [|e l IH]; intros s0 H; [exact H|].
  rewrite run_cons. apply IH. now apply logInvariant_step.
Qed.

(** C2, amended.  In every reachable state, every answered turn that was
    submitted with at least one image (its user message is directly
    followed by an assistant message) has a synthesized analysis message
    immediately preceding its user message.  The analysis message enters
    the log with the answer: when such a turn is answered successfully, the
    log becomes the prior log followed by the analysis message, the user
    message and the assistant message, in this order, and the analysis
    message is one the render filter hides. *)
Theorem answered_turns_keep_analysis (s : State) :
  reachable s ->
  analysisPrecedesAnswered (messages s)
  /\ (forall during assistantMessage,
        submitBlocked s = false ->
        uploadedImages s <> [] ->
        forallb quiet during = true ->
        messages
          (next (run (next s FormSubmitted) during)
             (ChatReplied (ReplyOk assistantMessage)))
        = messages s
            ++ [ analysisMsg (uploadedImages s);
                 userMessageForDisplay (trim (input s)) (uploadedImages s);
                 assistantMessage ]
        /\ isAnalysis (analysisMsg (uploadedImages s)) = true
        /\ isImageTurn
             (userMessageForDisplay (trim (input s)) (uploadedImages s))
           = true).
Proof.
  intro H. split; [apply (li_answered (logInvariant_reachable H))|].
  intros during assistantMessage Hs Hi Hq.
  split; [now apply log_after_success|].
  destruct (uploadedImages s); [contradiction|]. split; reflexivity.
Qed.

Lemma answered_turns_keep_analysis_witness :
  analysisPrecedesAnswered (messages Scenario.answered)
  /\ messages
       (next (run (next Scenario.ready FormSubmitted) [ProgressTicked])
          (ChatReplied (ReplyOk Scenario.reply)))
     = messages Scenario.ready
         ++ [ analysisMsg (uploadedImages Scenario.ready);
              userMessageForDisplay (trim (input Scenario.ready))
                (uploadedImages Scenario.ready);
              Scenario.reply ].
Proof.
  split.
  - exact (proj1
             (@answered_turns_keep_analysis Scenario.answered
                (reachable_next _ (reachable_next _ scenario_ready_reachable)))).
  - exact (proj1
             (proj2
                (@answered_turns_keep_analysis Scenario.ready
                   scenario_ready_reachable)
                [ProgressTicked] Scenario.reply eq_refl
                ltac:(discriminate) eq_refl)).
Defined.

End AnsweredTurns.

(** ** The model preference *)

Section PreferenceFacts.

(** The model preference survives a reload: mounting with the value saved
    for a model selects that model and leaves the stored value as it is.
    An entry of the model list selects its model in every state, also while
    a request is in flight, and the value saved after it brings that model
    back at the next mount.  With any other stored value, or none, the
    default model stays selected and its name is written to the store. *)
Theorem preference_round_trip (storage : Storage) :
  (forall s,
     selectedModel (fst (mount (savePreference s))) = selectedModel s
     /\ snd (mount (savePreference s)) = savePreference s)
  /\ (forall s model,
        selectedModel (fst (chooseModel model s)) = model
        /\ selectedModel (fst (mount (snd (chooseModel model s)))) = model)
  /\ (storage <> Some (lit "mistral") ->
      storage <> Some (lit "gemma") ->
      selectedModel (fst (mount storage)) = mistral
      /\ snd (mount storage) = Some (lit "mistral")).
Proof.
  split; [|split].
  - intro s. unfold savePreference. destruct (selectedModel s);
      split; reflexivity.
  - intros s model. unfold chooseModel, next, step.
    now destruct model.
  - intros Hm Hg. unfold mount, loadPreference.
    destruct storage as [v|]; [|split; reflexivity].
    unfold jseqb.
    destruct (jsstring_eq_dec v (lit "mistral")) as [->|_];
      [now contradiction Hm|].
    destruct (jsstring_eq_dec v (lit "gemma")) as [->|_];
      [now contradiction Hg|].
    rewrite andb_false_r. split; reflexivity.
Qed.

Lemma preference_round_trip_witness :
  selectedModel (fst (mount (Some (lit "gpt")))) = mistral
  /\ snd (mount (Some (lit "gpt"))) = Some (lit "mistral").
Proof.
  exact (proj2 (proj2 (preference_round_trip (Some (lit "gpt"))))
           ltac:(discriminate) ltac:(discriminate)).
Defined.

End PreferenceFacts.

(** ** The life of one upload *)

Section UploadLifecycle.

Local Open Scope Z_scope.

Lemma updateImages_last (me : jsstring) (u : ImageUpdates)
    (staged : list ImageData) (img : ImageData) :
  ~ In (Some me) (map id staged) ->
  id img = Some me ->
  updateImages me u (staged ++ [img]) = staged ++ [spread img u].
Proof.
  intros Hf Hi. rewrite updateImages_app, (updateImages_others _ _ _ Hf).
  cbn. now rewrite (hasId_true _ Hi).
Qed.

Lemma drop_last (me : jsstring) (staged : list ImageData)
    (img : ImageData) :
  ~ In (Some me) (map id staged) ->
  id img = Some me ->
  filter (fun x => negb (hasId me x)) (staged ++ [img]) = staged.
Proof.
  intros Hf Hi. rewrite filter_app. cbn. rewrite (hasId_true _ Hi). cbn.
  rewrite app_nil_r. induction staged as [|x l IH]; [reflexivity|].
  cbn in *. rewrite hasId_false by tauto. cbn. f_equal. apply IH. tauto.
Qed.

Lemma crawl_last (me : jsstring) (staged : list ImageData)
    (img : ImageData) :
  ~ In (Some me) (map id staged) ->
  map (crawlImage me) (staged ++ [img]) = staged ++ [crawlImage me img].
Proof.
  intro Hf. rewrite map_app. cbn. f_equal.
  induction staged as [|x l IH]; [reflexivity|].
  cbn in *. rewrite IH by tauto. f_equal.
  unfold crawlImage. destruct (progress x); [|reflexivity].
  now rewrite hasId_false by tauto.
Qed.

Lemma setPhaseAt_last (tasks : list UploadTask) (t : UploadTask)
    (p : UploadPhase) :
  setPhaseAt (List.length tasks) p (tasks ++ [t])
  = tasks ++ [mkUploadTask (imageId t) (userPrompt t) p].
Proof.
  induction tasks as [|x l IH]; cbn; [reflexivity|]. now rewrite IH.
Qed.

Lemma nth_error_last {A : Type} (l : list A) (x : A) :
  nth_error (l ++ [x]) (List.length l) = Some x.
Proof.
  rewrite nth_error_app2 by lia. now rewrite Nat.sub_diag.
Qed.

Variables (s : State) (file : File) (random36 dataUrl : jsstring).

Hypothesis idle : isLoading s = false.
Hypothesis image_type : startsWith (file_type file) (lit "image/") = true.
Hypothesis small : file_size file <= 10 * 1024 * 1024.
Hypothesis fresh :
  ~ In (Some (substring_from 7 random36)) (map id (uploadedImages s)).

Let me : jsstring := substring_from 7 random36.
Let n : nat := List.length (uploads s).
Let chosen : State := next s (FileChosen file random36).
Let loaded : State := next chosen (UploadResumed n (FileLoaded dataUrl)).

Lemma nth_task (t : UploadTask) :
  nth_error (uploads s ++ [t]) n = Some t.
Proof. apply nth_error_last. Qed.

Lemma setPhase_task (t : UploadTask) (p : UploadPhase) :
  setPhaseAt n p (uploads s ++ [t])
  = uploads s ++ [mkUploadTask (imageId t) (userPrompt t) p].
Proof. apply setPhaseAt_last. Qed.

Lemma chosen_state :
  uploadedImages chosen
  = uploadedImages s
      ++ [mkImageData (Some me) [] None None (Some 15)
            (Some (lit "Converting...")) (Some true)]
  /\ uploads chosen = uploads s ++ [mkUploadTask me (input s) Reading]
  /\ error chosen = error s
  /\ isLoading chosen = false
  /\ input chosen = input s.
Proof.
  unfold chosen, next, step. rewrite idle. unfold handleImageUpload.
  rewrite image_type. cbn [negb].
  destruct (file_size file >? 10 * 1024 * 1024) eqn:G;
    [apply Z.gtb_gt in G; lia|].
  cbn -[updateImages]. rewrite updateImages_last by (exact fresh || reflexivity).
  rewrite idle. repeat split; reflexivity.
Qed.

Lemma loaded_state :
  uploadedImages loaded
  = uploadedImages s
      ++ [mkImageData (Some me) dataUrl None None (Some 40)
            (Some (lit "Analyzing Image...")) (Some true)]
  /\ uploads loaded = uploads s ++ [mkUploadTask me (input s) Analyzing]
  /\ error loaded = error s
  /\ isLoading loaded = false
  /\ input loaded = input s
  /\ snd (step chosen (UploadResumed n (FileLoaded dataUrl)))
     = [FetchImage dataUrl (trim (input s))].
Proof.
  destruct chosen_state as (Hu & Ht & He & Hl & Hi).
  unfold loaded, next, step, resumeUpload. rewrite Ht.
  rewrite nth_task. cbn -[updateImages setPhaseAt].
  rewrite Hu, Ht, He, Hl, Hi.
  rewrite !updateImages_last by (exact fresh || reflexivity).
  rewrite setPhase_task. repeat split; reflexivity.
Qed.

Lemma upload_completes_state (serialized : option jsstring) :
  let completed :=
    next loaded (UploadResumed n (ImageReplied (ImageOk serialized))) in
  uploadedImages completed
  = uploadedImages s
      ++ [mkImageData (Some me) dataUrl serialized (Some true) (Some 100)
            (Some (lit "Complete")) (Some false)]
  /\ isLoading completed = false.
Proof.
  destruct loaded_state as (Hu & Ht & He & Hl & Hi & Hf).
  cbv zeta. unfold next, step, resumeUpload. rewrite Ht.
  rewrite nth_task. cbn -[updateImages setPhaseAt].
  rewrite Hu, Hl.
  rewrite !updateImages_last by (exact fresh || reflexivity).
  split; reflexivity.
Qed.

(** An upload that goes well.  For a file that passes the guards, with an
    id not yet staged: the read file goes to the vision route together with
    the trimmed text of the input field; the answer completes the
    attachment with its data URL, its description and the flags of a
    finished upload; the feedback reset two seconds later clears progress
    and status and nothing else.  No other attachment is touched. *)
Theorem upload_completes (serialized : option jsstring) :
  let completed :=
    next loaded (UploadResumed n (ImageReplied (ImageOk serialized))) in
  snd (step chosen (UploadResumed n (FileLoaded dataUrl)))
  = [FetchImage dataUrl (trim (input s))]
  /\ uploadedImages completed
     = uploadedImages s
         ++ [mkImageData (Some me) dataUrl serialized (Some true) (Some 100)
               (Some (lit "Complete")) (Some false)]
  /\ uploadedImages (next completed (UploadResumed n SettleFired))
     = uploadedImages s
         ++ [mkImageData (Some me) dataUrl serialized (Some true) None None
               (Some false)]
  /\ error completed = error s.
Proof.
  destruct loaded_state as (Hu & Ht & He & Hl & Hi & Hf).
  cbv zeta. split; [exact Hf|].
  assert (C : let completed :=
                next loaded
                  (UploadResumed n (ImageReplied (ImageOk serialized))) in
              uploadedImages completed
              = uploadedImages s
                  ++ [mkImageData (Some me) dataUrl serialized (Some true)
                        (Some 100) (Some (lit "Complete")) (Some false)]
              /\ uploads completed
                 = uploads s ++ [mkUploadTask me (input s) Settling]
              /\ error completed = error s).
  { cbv zeta. unfold next, step, resumeUpload. rewrite Ht.
    rewrite nth_task. cbn -[updateImages setPhaseAt].
    rewrite Hu, Ht, He.
    rewrite !updateImages_last by (exact fresh || reflexivity).
    rewrite setPhase_task. repeat split; reflexivity. }
  cbv zeta in C. destruct C as (Cu & Ct & Ce).
  split; [exact Cu|]. split; [|exact Ce].
  unfold next at 1. unfold step, resumeUpload. rewrite Ct.
  rewrite nth_task. cbn -[updateImages setPhaseAt next].
  rewrite Cu. now rewrite updateImages_last by (exact fresh || reflexivity).
Qed.

Lemma upload_refused_state (text : jsstring) (http_status : nat) :
  text <> [] ->
  let refused :=
    next loaded
      (UploadResumed n (ImageReplied (ImageError (Some text) http_status))) in
  uploadedImages refused = uploadedImages s /\ error refused = Some text.
Proof.
  intro N0. destruct loaded_state as (Hu' & Ht' & _).
  cbv zeta. unfold next, step, resumeUpload. rewrite Ht'.
  rewrite !nth_task.
  cbn -[filter setPhaseAt lit number_to_string]. rewrite Hu'.
  rewrite !drop_last by (exact fresh || reflexivity).
  destruct text; [contradiction|]. split; reflexivity.
Qed.

(** An upload that fails leaves no trace but the error text.  For a file
    that passes the guards, with an id not yet staged: whether the file
    cannot be read, the vision route answers with an error, or the fetch
    itself fails, the staging area is again exactly what it was before the
    file was chosen; the error shown is the fixed text for a
    read failure, the error of the body or else "Server error: " with the
    status for an HTTP failure, and the message of the rejection. *)
Theorem upload_failure_leaves_no_record (data_error : option jsstring)
    (http_status : nat) (message : jsstring) :
  let unread := next chosen (UploadResumed n FileFailed) in
  let refused :=
    next loaded
      (UploadResumed n (ImageReplied (ImageError data_error http_status))) in
  let lost :=
    next loaded (UploadResumed n (ImageReplied (ImageRejected message))) in
  (uploadedImages unread = uploadedImages s
   /\ error unread = Some (lit "Failed to process image"))
  /\ (uploadedImages refused = uploadedImages s
      /\ error refused
         = Some match data_error with
                | Some (c :: e) => c :: e
                | _ => lit "Server error: " ++ number_to_string http_status
                end)
  /\ (uploadedImages lost = uploadedImages s
      /\ error lost = Some message).
Proof.
  destruct chosen_state as (Hu & Ht & _).
  destruct loaded_state as (Hu' & Ht' & _).
  cbv zeta. unfold next, step, resumeUpload. rewrite Ht, Ht'.
  rewrite !nth_task.
  cbn -[filter setPhaseAt lit number_to_string]. rewrite Hu, Hu'.
  rewrite !drop_last by (exact fresh || reflexivity).
  repeat split; try reflexivity.
  destruct data_error as [[|c e]|]; reflexivity.
Qed.

(** For a file that passes the guards, with an id not yet staged: while
    the vision request is out, each firing of the upload's interval adds
    one to the progress of its attachment, from 40 up to 80 and no further,
    and changes no other attachment. *)
Theorem upload_crawl_capped (ticks : nat) :
  uploadedImages (run loaded (repeat (UploadResumed n CrawlFired) ticks))
  = uploadedImages s
      ++ [mkImageData (Some me) dataUrl None None
            (Some (Z.min (40 + Z.of_nat ticks) 80))
            (Some (lit "Analyzing Image...")) (Some true)].
Proof.
  destruct loaded_state as (Hu & Ht & _).
  assert (G : forall k st p,
             p <= 80 ->
             uploadedImages st
             = uploadedImages s
                 ++ [mkImageData (Some me) dataUrl None None (Some p)
                       (Some (lit "Analyzing Image...")) (Some true)] ->
             uploads st = uploads s ++ [mkUploadTask me (input s) Analyzing] ->
             uploadedImages (run st (repeat (UploadResumed n CrawlFired) k))
             = uploadedImages s
                 ++ [mkImageData (Some me) dataUrl None None
                       (Some (Z.min (p + Z.of_nat k) 80))
                       (Some (lit "Analyzing Image...")) (Some true)]).
  { induction k as [|k IH]; intros st p Hp Hs Hts.
    - cbn [repeat run fold_left]. rewrite Hs. do 4 f_equal. lia.
    - cbn [repeat]. rewrite run_cons.
      assert (E : uploadedImages (next st (UploadResumed n CrawlFired))
                  = uploadedImages s
                      ++ [mkImageData (Some me) dataUrl None None
                            (Some (if p <? 80 then p + 1 else p))
                            (Some (lit "Analyzing Image...")) (Some true)]
                  /\ uploads (next st (UploadResumed n CrawlFired))
                     = uploads s ++ [mkUploadTask me (input s) Analyzing]).
      { unfold next, step, resumeUpload. rewrite Hts.
        rewrite nth_task. cbn -[crawlImage].
        rewrite Hs, Hts. rewrite crawl_last by exact fresh.
        split; [|reflexivity]. f_equal. unfold crawlImage. cbn.
        rewrite jseqb_refl. cbn. now destruct (p <? 80). }
      destruct E as (Eu & Et).
      rewrite (IH _ (if p <? 80 then p + 1 else p)); trivial.
      + do 4 f_equal. destruct (p <? 80) eqn:C; lia.
      + destruct (p <? 80) eqn:C; lia. }
  apply G; trivial. lia.
Qed.

(** Clearing the chat while the file is being read empties the staging
    area and leaves the upload waiting for its file; a text typed then
    passes the guard and is sent. *)
Lemma cleared_upload_submits (text : jsstring) :
  trim text <> [] ->
  let cleared := next (next chosen ClearClicked) (InputChanged text) in
  uploadedImages cleared = []
  /\ nth_error (uploads cleared) n = Some (mkUploadTask me (input s) Reading)
  /\ submitBlocked cleared = false
  /\ snd (step cleared FormSubmitted)
     = [FetchChat (finalContext [] None (trim text) []) (selectedModel s)].
Proof.
  intro Nt. destruct chosen_state as (Hu & Ht & He & Hl & Hi).
  assert (Hm : selectedModel chosen = selectedModel s).
  { unfold chosen, next, step. rewrite idle. unfold handleImageUpload.
    rewrite image_type. cbn [negb].
    now destruct (file_size file >? 10 * 1024 * 1024). }
  clearbody chosen. cbv zeta.
  assert (C : next chosen ClearClicked = clearChat chosen)
    by (unfold next, step; now rewrite Hl).
  rewrite C.
  assert (I : next (clearChat chosen) (InputChanged text)
              = setInput text (clearChat chosen)).
  { unfold next, step.
    change (isLoading (clearChat chosen)) with (isLoading chosen).
    now rewrite Hl. }
  rewrite I.
  assert (B : submitBlocked (setInput text (clearChat chosen)) = false).
  { unfold submitBlocked, isProcessingImage.
    change (input (setInput text (clearChat chosen))) with text.
    change (uploadedImages (setInput text (clearChat chosen)))
      with (@nil ImageData).
    change (isLoading (setInput text (clearChat chosen)))
      with (isLoading chosen).
    rewrite Hl. destruct (trim text); [contradiction|]. reflexivity. }
  split; [reflexivity|]. split.
  { change (uploads (setInput text (clearChat chosen)))
      with (uploads chosen).
    rewrite Ht. apply nth_task. }
  split; [exact B|].
  cbn [step]. rewrite (handleSubmit_accepted _ B). cbn [snd].
  change (selectedModel (setInput text (clearChat chosen)))
    with (selectedModel chosen).
  now rewrite Hm.
Qed.

(** As long as the uploading attachment is in the staging area, after the
    file is chosen and after it is read, a submission does nothing,
    whatever the text field holds; once the upload has completed, and no
    other attachment is uploading, the submission is accepted even with an
    empty text field.  The block is tied to the staged attachment, not to
    the upload: after the chat is cleared, a typed text is submitted
    although the file is still being read. *)
Theorem upload_blocks_submit (serialized : option jsstring)
    (text : jsstring) :
  step chosen FormSubmitted = (chosen, [])
  /\ step loaded FormSubmitted = (loaded, [])
  /\ (isProcessingImage s = false ->
      submitBlocked
        (next loaded (UploadResumed n (ImageReplied (ImageOk serialized))))
      = false)
  /\ (trim text <> [] ->
      let cleared := next (next chosen ClearClicked) (InputChanged text) in
      uploadedImages cleared = []
      /\ nth_error (uploads cleared) n
         = Some (mkUploadTask me (input s) Reading)
      /\ submitBlocked cleared = false
      /\ snd (step cleared FormSubmitted)
         = [FetchChat (finalContext [] None (trim text) [])
              (selectedModel s)]).
Proof.
  destruct chosen_state as (Hu & Ht & He & Hl & Hi).
  destruct loaded_state as (Hu' & Ht' & He' & Hl' & Hi' & _).
  assert (P : forall st img,
             uploadedImages st = uploadedImages s ++ [img] ->
             isUploading img = Some true ->
             handleSubmit st = (st, [])).
  { intros st img E U. apply handleSubmit_blocked. unfold submitBlocked.
    assert (X : isProcessingImage st = true).
    { unfold isProcessingImage. rewrite E, existsb_app. cbn. rewrite U.
      cbn. apply orb_true_r. }
    rewrite X. apply orb_true_r. }
  split; [exact (P _ _ Hu eq_refl)|].
  split; [exact (P _ _ Hu' eq_refl)|].
  split; [|apply cleared_upload_submits].
  intro Q.
  destruct (upload_completes_state serialized) as (Cu & Cl).
  unfold submitBlocked, isProcessingImage. rewrite Cu, Cl.
  rewrite existsb_app, length_app. cbn.
  unfold isProcessingImage in Q. rewrite Q.
  rewrite andb_false_intro2; [reflexivity|].
  apply Nat.eqb_neq. lia.
Qed.

End UploadLifecycle.

Section UploadLifecycleExamples.

Local Open Scope Z_scope.

Lemma upload_completes_witness :
  uploadedImages
    (next
       (next (next initial (FileChosen Scenario.photo Cases.draw1))
          (UploadResumed (List.length (uploads initial))
             (FileLoaded Cases.pngUrl)))
       (UploadResumed (List.length (uploads initial))
          (ImageReplied (ImageOk (Some (lit "{}"))))))
  = uploadedImages initial
      ++ [mkImageData (Some (substring_from 7 Cases.draw1)) Cases.pngUrl
            (Some (lit "{}")) (Some true) (Some 100) (Some (lit "Complete"))
            (Some false)].
Proof.
  exact (proj1 (proj2
           (@upload_completes initial Scenario.photo Cases.draw1 Cases.pngUrl
              eq_refl eq_refl ltac:(cbv; discriminate) ltac:(intros [])
              (Some (lit "{}"))))).
Defined.

Lemma upload_failure_leaves_no_record_witness :
  uploadedImages
    (next
       (next (next initial (FileChosen Scenario.photo Cases.draw1))
          (UploadResumed (List.length (uploads initial))
             (FileLoaded Cases.pngUrl)))
       (UploadResumed (List.length (uploads initial))
          (ImageReplied (ImageError None 502))))
  = uploadedImages initial
  /\ error
       (next
          (next (next initial (FileChosen Scenario.photo Cases.draw1))
             (UploadResumed (List.length (uploads initial))
                (FileLoaded Cases.pngUrl)))
          (UploadResumed (List.length (uploads initial))
             (ImageReplied (ImageError None 502))))
     = Some (lit "Server error: " ++ number_to_string 502).
Proof.
  exact (proj1 (proj2
           (@upload_failure_leaves_no_record initial Scenario.photo
              Cases.draw1 Cases.pngUrl
              eq_refl eq_refl ltac:(cbv; discriminate) ltac:(intros [])
              None 502%nat []))).
Defined.

Lemma upload_crawl_capped_witness :
  uploadedImages
    (run
       (next (next initial (FileChosen Scenario.photo Cases.draw1))
          (UploadResumed (List.length (uploads initial))
             (FileLoaded Cases.pngUrl)))
       (repeat (UploadResumed (List.length (uploads initial)) CrawlFired)
          100))
  = uploadedImages initial
      ++ [mkImageData (Some (substring_from 7 Cases.draw1)) Cases.pngUrl
            None None (Some (Z.min (40 + Z.of_nat 100) 80))
            (Some (lit "Analyzing Image...")) (Some true)].
Proof.
  exact (@upload_crawl_capped initial Scenario.photo Cases.draw1 Cases.pngUrl
           eq_refl eq_refl ltac:(cbv; discriminate) ltac:(intros []) 100%nat).
Defined.

Lemma upload_blocks_submit_witness :
  step (next initial (FileChosen Scenario.photo Cases.draw1)) FormSubmitted
  = (next initial (FileChosen Scenario.photo Cases.draw1), [])
  /\ snd
       (step
          (next
             (next (next initial (FileChosen Scenario.photo Cases.draw1))
                ClearClicked)
             (InputChanged (lit "Hello")))
          FormSubmitted)
     = [FetchChat (finalContext [] None (trim (lit "Hello")) [])
          (selectedModel initial)].
Proof.
  destruct (@upload_blocks_submit initial Scenario.photo Cases.draw1
              Cases.pngUrl
              eq_refl eq_refl ltac:(cbv; discriminate) ltac:(intros [])
              None (lit "Hello"))
    as (Hc & _ & _ & Hx).
  split; [exact Hc|].
  exact (proj2 (proj2 (proj2 (Hx ltac:(discriminate))))).
Defined.

End UploadLifecycleExamples.

(** ** Files arriving in batches *)

Section IntakeFacts.

Local Open Scope Z_scope.

Lemma startsWith_app (s p q : jsstring) :
  startsWith s (p ++ q) = true -> startsWith s p = true.
Proof.
  revert s. induction p as [|a p IH]; intros s H; [now destruct s|].
  destruct s as [|b s]; [discriminate H|]. cbn in *.
  apply andb_prop in H as [E H]. rewrite E. now apply IH.
Qed.

(** Whatever the upload handler accepts, the paste filter lets through. *)
Lemma image_type_includes_image (t : jsstring) :
  startsWith t (lit "image/") = true -> includes t (lit "image") = true.
Proof.
  intro H. change (lit "image/") with (lit "image" ++ lit "/") in H.
  apply startsWith_app in H. destruct t; cbn [includes]; now rewrite H.
Qed.

Lemma handleImageUpload_cases (file : File) (random36 : jsstring)
    (s : State) :
  if passesGuards file then
    snd (handleImageUpload file random36 s) = [ReadFile file]
    /\ List.length (uploadedImages (fst (handleImageUpload file random36 s)))
       = S (List.length (uploadedImages s))
    /\ error (fst (handleImageUpload file random36 s)) = error s
  else
    snd (handleImageUpload file random36 s) = []
    /\ uploadedImages (fst (handleImageUpload file random36 s))
       = uploadedImages s
    /\ error (fst (handleImageUpload file random36 s)) <> None.
Proof.
  unfold passesGuards, handleImageUpload.
  destruct (startsWith (file_type file) (lit "image/")); cbn [negb andb].
  - destruct (file_size file >? 10 * 1024 * 1024); cbn [negb].
    + repeat split; cbn; discriminate.
    + cbn -[updateImages]. split; [reflexivity|]. split; [|reflexivity].
      unfold updateImages. rewrite length_map, length_app. cbn. lia.
  - repeat split; cbn; discriminate.
Qed.

Lemma uploadAll_stages (files : list File) (draw : nat -> jsstring) :
  forall k s,
    snd (uploadAll files draw k s) = map ReadFile (filter passesGuards files)
    /\ List.length (uploadedImages (fst (uploadAll files draw k s)))
       = (List.length (uploadedImages s)
          + List.length (filter passesGuards files))%nat.
Proof.
  induction files as [|file rest IH]; intros k s.
  - cbn. split; [reflexivity | lia].
  - cbn [uploadAll filter].
    pose proof (handleImageUpload_cases file (draw k) s) as C.
    destruct (handleImageUpload file (draw k) s) as [s1 e1] eqn:E.
    cbn [fst snd] in C.
    destruct (passesGuards file).
    + destruct (IH (S k) s1) as (I1 & I2).
      destruct (uploadAll rest draw (S k) s1) as [s2 e2].
      cbn [fst snd] in *. destruct C as (C1 & C2 & C3). subst e1 e2.
      split; [reflexivity|]. rewrite I2, C2. cbn. lia.
    + destruct (IH k s1) as (I1 & I2).
      destruct (uploadAll rest draw k s1) as [s2 e2].
      cbn [fst snd] in *. destruct C as (C1 & C2 & C3). subst e1 e2.
      split; [reflexivity|]. rewrite I2, C2. lia.
Qed.

(** A batch of files, from the file input or from a paste: exactly the
    files that pass the two guards are staged and read, in their order,
    one attachment each; the others add nothing, and the batch issues no
    network request. *)
Theorem batch_stages_valid_files (files : list File) (draw : nat -> jsstring)
    (k : nat) (s : State) :
  snd (uploadAll files draw k s) = map ReadFile (filter passesGuards files)
  /\ List.length (uploadedImages (fst (uploadAll files draw k s)))
     = (List.length (uploadedImages s)
        + List.length (filter passesGuards files))%nat.
Proof.
  destruct (uploadAll_stages files draw k s) as (E & L).
  split; [exact E | exact L].
Qed.

Lemma pasted_valid_files (items : list ClipboardItem) :
  (forall item file,
     In item items -> item_file item = Some file ->
     file_type file = item_type item) ->
  filter passesGuards (pastedFiles items)
  = filter passesGuards (filesOf items).
Proof.
  induction items as [|item items IH]; intro H; [reflexivity|].
  unfold pastedFiles, filesOf in *. cbn [flat_map].
  rewrite !filter_app, IH by (intros; eapply H; eauto; now right).
  f_equal.
  destruct (item_file item) as [f|] eqn:F;
    [|now destruct (includes _ _)].
  destruct (includes (item_type item) (lit "image")) eqn:I; [reflexivity|].
  cbn. destruct (passesGuards f) eqn:G; [|reflexivity].
  unfold passesGuards in G. apply andb_prop in G as [G _].
  rewrite (H item f (or_introl eq_refl) F) in G.
  apply image_type_includes_image in G. congruence.
Qed.

(** Pasting loses no image: when each clipboard file has the type of its
    item, the files staged and read by the paste handler are exactly the
    clipboard files that pass the guards of the upload handler.  A paste
    without clipboard data, or whose items have no "image" in their type,
    changes nothing and shows no error. *)
Theorem paste_stages_every_valid_image (items : list ClipboardItem)
    (draw : nat -> jsstring) (s : State) :
  ((forall item file,
      In item items -> item_file item = Some file ->
      file_type file = item_type item) ->
   snd (handlePaste (Some items) draw s)
   = map ReadFile (filter passesGuards (filesOf items))
   /\ List.length (uploadedImages (fst (handlePaste (Some items) draw s)))
      = (List.length (uploadedImages s)
         + List.length (filter passesGuards (filesOf items)))%nat)
  /\ ((forall item,
         In item items -> includes (item_type item) (lit "image") = false) ->
      handlePaste (Some items) draw s = (s, []))
  /\ handlePaste None draw s = (s, []).
Proof.
  split; [|split; [|reflexivity]].
  - intro H. unfold handlePaste.
    destruct (uploadAll_stages (pastedFiles items) draw 0 s)
      as (B1 & B2).
    rewrite B1, B2. now rewrite (pasted_valid_files items H).
  - intro H. unfold handlePaste.
    assert (E : pastedFiles items = []).
    { unfold pastedFiles. induction items as [|item items IH];
        [reflexivity|].
      cbn [flat_map]. rewrite (H item (or_introl eq_refl)).
      apply IH. intros; apply H; now right. }
    now rewrite E.
Qed.

Lemma paste_stages_every_valid_image_witness :
  snd (handlePaste (Some Cases.clipboard) Cases.draws initial)
  = map ReadFile (filter passesGuards (filesOf Cases.clipboard)).
Proof.
  refine (proj1
            (proj1
               (@paste_stages_every_valid_image Cases.clipboard Cases.draws
                  initial) _)).
  intros item file [<-|[<-|[]]] E; try discriminate E.
  injection E as <-. reflexivity.
Defined.

End IntakeFacts.

(** * Properties of the API routes *)

(** ** [/api/chat] *)

(** An answer that is a failure: an error text that is not empty and a
    status that is not a success. *)
Ltac failure_answer :=
  right; eexists;
  split; [reflexivity | split; [discriminate | first [reflexivity | eassumption]]].

Section ChatRouteFacts.

Variables (env : Env) (upstream : ChatCall -> ChatUpstream).

(** The chat route calls OpenRouter only for a request whose body parses,
    whose [messages] is a non-empty array, and with a non-empty API key in
    the environment; it then makes exactly that call, with the messages
    unchanged.  Every other request is answered without a call. *)
Theorem chat_route_calls_upstream_iff (body : option ChatRequestBody) :
  (fst (chatRoute env body upstream) <> None
   <-> exists model first rest key,
         body
         = Some (mkChatRequestBody (MessagesArray (first :: rest)) model)
         /\ OPENROUTER_API_KEY env = Some key /\ key <> [])
  /\ (forall call,
        fst (chatRoute env body upstream) = Some call ->
        exists model key,
          body
          = Some (mkChatRequestBody (MessagesArray (call_messages call)) model)
          /\ OPENROUTER_API_KEY env = Some key
          /\ call_authorization call = lit "Bearer " ++ key
          /\ call_model call
             = modelMap match model with Some m => m | None => mistral end).
Proof.
  unfold chatRoute. split.
  - split.
    + destruct body as [[[| |[|first rest]] model]|]; cbn;
        try (intro H; now contradiction H).
      destruct (OPENROUTER_API_KEY env) as [[|c key]|]; cbn;
        try (intro H; now contradiction H).
      intros _. exists model, first, rest, (c :: key).
      repeat split. discriminate.
    + intros (model & first & rest & key & -> & K & N). cbn. rewrite K.
      destruct key; [contradiction|]. cbn. discriminate.
  - intros call.
    destruct body as [[[| |[|first rest]] model]|]; cbn; try discriminate.
    destruct (OPENROUTER_API_KEY env) as [[|c key]|]; cbn; try discriminate.
    intros [= <-]. exists model, (c :: key). cbn. repeat split.
Qed.

Lemma chat_route_classified (body : option ChatRequestBody) :
  (exists message call status statusText,
     fst (chatRoute env body upstream) = Some call
     /\ upstream call
        = ChatResponded status statusText (ChatFirst (Some message))
     /\ ok status = true
     /\ snd (chatRoute env body upstream)
        = mkChatAnswer 200 (ChatSuccess message))
  \/ (exists error,
        chat_body (snd (chatRoute env body upstream)) = ChatFailure error
        /\ error <> []
        /\ ok (chat_status (snd (chatRoute env body upstream))) = false).
Proof.
  unfold chatRoute.
  destruct body as [[[| |[|first rest]] model]|]; cbn [req_messages snd];
    try failure_answer.
  destruct (negb (present (OPENROUTER_API_KEY env))); cbn [snd fst];
    [failure_answer|].
  destruct (upstream _) as [|status statusText payload] eqn:U;
    [failure_answer|].
  destruct (ok status) eqn:O; cbn [negb].
  - destruct payload as [|[m|]]; [failure_answer | | failure_answer].
    left. exists m. eexists. exists status, statusText.
    split; [reflexivity|]. split; [exact U|]. split; [exact O | reflexivity].
  - destruct (answerable status); failure_answer.
Qed.

(** The call the route makes carries the messages of the request. *)
Lemma chat_route_call_messages (messages : list ApiMessage)
    (model : option ModelChoice) (call : ChatCall) :
  fst (chatRoute env (Some (mkChatRequestBody (MessagesArray messages) model))
         upstream) = Some call ->
  call_messages call = messages.
Proof.
  unfold chatRoute. cbn [req_messages req_model].
  destruct messages as [|first rest]; [discriminate|].
  destruct (negb (present (OPENROUTER_API_KEY env))); [discriminate|].
  cbn [fst]. now intros [= <-].
Qed.

(** Every answer of the chat route is either status 200 with the
    assistant message of the first choice of a 2xx answer to the call the
    route made, or a status outside 200-299 together with a non-empty
    error text. *)
Theorem chat_route_answers (body : option ChatRequestBody) :
  let answer := snd (chatRoute env body upstream) in
  (exists message call status statusText,
     fst (chatRoute env body upstream) = Some call
     /\ upstream call
        = ChatResponded status statusText (ChatFirst (Some message))
     /\ ok status = true
     /\ answer = mkChatAnswer 200 (ChatSuccess message))
  \/ (exists error,
        chat_body answer = ChatFailure error
        /\ error <> []
        /\ ok (chat_status answer) = false).
Proof.
  exact (chat_route_classified body).
Qed.

End ChatRouteFacts.

(** ** The chat route and the component together *)

Section ChatEndToEnd.

Variables (env : Env) (upstream : ChatCall -> ChatUpstream) (s : State).

Hypothesis accepted : submitBlocked s = false.

Let context : list ApiMessage :=
  finalContext (messages s) (internalSummary s) (trim (input s))
    (uploadedImages s).

Let body : option ChatRequestBody :=
  Some (chatBodyOf context (selectedModel s)).

(** What an accepted submission posts always passes the validation of the
    chat route: the answer is never the route's refusal of a missing or
    empty [messages], and with an API key configured the route forwards
    exactly the assembled context under the model name mapped from the
    selected model. *)
Theorem submission_passes_route_validation :
  snd (handleSubmit s) = [FetchChat context (selectedModel s)]
  /\ chat_body (snd (chatRoute env body upstream))
     <> ChatFailure (lit "Messages array is required and cannot be empty")
  /\ (present (OPENROUTER_API_KEY env) = true ->
      exists call,
        fst (chatRoute env body upstream) = Some call
        /\ call_messages call = context
        /\ call_model call = modelMap (selectedModel s)).
Proof.
  split; [now rewrite (handleSubmit_accepted s accepted)|].
  assert (C : exists first rest, context = first :: rest).
  { unfold context, finalContext, contextSource. cbn. eauto. }
  destruct C as (first & rest & C).
  unfold body, chatBodyOf, chatRoute. rewrite C. cbn [req_messages req_model].
  split.
  - destruct (negb (present (OPENROUTER_API_KEY env))); cbn [snd];
      [cbn; discriminate|].
    destruct (upstream _) as [|status statusText payload]; [cbn; discriminate|].
    destruct (ok status) eqn:O; cbn [negb].
    + destruct payload as [|[m|]]; cbn; discriminate.
    + destruct (answerable status); cbn; discriminate.
  - intros K. rewrite K. cbn [negb fst]. eexists. split; [reflexivity|].
    split; reflexivity.
Qed.

(** Whatever the chat route answers to an accepted submission reaches the
    user: a failure ends the wait with exactly the route's error text as
    the error shown, the user message kept at the end of the log and the
    progress at 0; a success is the first choice of a 2xx answer to the
    call that carried the assembled context, and its message ends the log
    as the answer of the turn, after the user message and, when images
    were attached, the analysis message before that. *)
Theorem route_answer_reaches_user (during : list Event) :
  forallb quiet during = true ->
  let answer := snd (chatRoute env body upstream) in
  exists reply,
    chatReplyOf answer = Some reply
    /\ let s' :=
         next (run (next s FormSubmitted) during) (ChatReplied reply) in
       isLoading s' = false
       /\ match chat_body answer with
          | ChatFailure text =>
              error s' = Some text
              /\ aiResponseProgress s' = 0%Z
              /\ messages s'
                 = messages s
                     ++ [userMessageForDisplay (trim (input s))
                           (uploadedImages s)]
          | ChatSuccess m =>
              (exists call status statusText,
                 fst (chatRoute env body upstream) = Some call
                 /\ call_messages call = context
                 /\ upstream call
                    = ChatResponded status statusText (ChatFirst (Some m))
                 /\ ok status = true)
              /\ messages s'
                 = messages s
                     ++ match uploadedImages s with
                        | [] => []
                        | _ :: _ => [analysisMsg (uploadedImages s)]
                        end
                     ++ [ userMessageForDisplay (trim (input s))
                            (uploadedImages s);
                          mkMessage (api_role m) (api_content m) None ]
          end.
Proof.
  intros Hq. cbv zeta.
  pose proof (awaiting_run during (submit_awaiting s accepted) Hq) as Hw.
  destruct (chat_route_classified env upstream body)
    as [(m & call & status & statusText & C & U & K & E)|(text & E & N & O)].
  - rewrite E. cbn [chatReplyOf ok chat_status chat_body Nat.leb andb].
    eexists. split; [reflexivity|]. split; [|split].
    + unfold next at 1. unfold step, resumeSubmit.
      now rewrite (aw_pending Hw).
    + exists call, status, statusText. split; [exact C|].
      split; [|now split].
      exact (@chat_route_call_messages env upstream context
               (Some (selectedModel s)) call C).
    + destruct (next_reply_ok
                  (mkMessage (api_role m) (api_content m) None) Hw)
        as (Hm & _).
      rewrite Hm, applyResponse_snoc. now destruct (uploadedImages s).
  - unfold chatReplyOf. rewrite O, E. eexists. split; [reflexivity|].
    destruct (@next_reply_failed _ _ _ (ReplyError (Some text)) Hw)
      as (Hm & Hp & Hl & _ & He); [intros m; discriminate|].
    cbv zeta in *. rewrite Hm, Hp, Hl, He.
    destruct text; [contradiction|]. repeat split.
Qed.

End ChatEndToEnd.

(** ** [/api/image] *)

Section ImageRouteFacts.

Variables (parse : jsstring -> option Json) (stringify : Json -> jsstring).
Variables (env : Env) (upstream : VisionCall -> VisionUpstream).

(** The image route calls the vision model only for a request that parses
    and carries a non-empty [imageUrl], and with an API key that is not
    blank: a key of white space only counts as missing.  The call carries
    the image and the trimmed key; the user's prompt is not part of it. *)
Theorem image_route_calls_upstream_iff (body : option ImageRequestBody) :
  (fst (imageRoute parse env body upstream) <> None
   <-> exists imageUrl userPrompt key,
         body = Some (mkImageRequestBody (Some imageUrl) userPrompt)
         /\ imageUrl <> []
         /\ OPENROUTER_API_KEY env = Some key
         /\ ~ Forall (fun c => is_space c = true) key)
  /\ (forall call,
        fst (imageRoute parse env body upstream) = Some call ->
        exists userPrompt key,
          body = Some (mkImageRequestBody (Some (vision_image call)) userPrompt)
          /\ OPENROUTER_API_KEY env = Some key
          /\ call
             = visionCall env (trim key) (lit "Kacung")
                 (lit "google/gemma-3-4b-it:free") (vision_image call)).
Proof.
  unfold imageRoute. split.
  - split.
    + destruct body as [[[[|c imageUrl]|] userPrompt]|]; cbn;
        try (intro H; now contradiction H).
      destruct (OPENROUTER_API_KEY env) as [key|]; cbn;
        [|intro H; now contradiction H].
      destruct (trim key) eqn:T; cbn; [intro H; now contradiction H|].
      intros _. exists (c :: imageUrl), userPrompt, key.
      repeat split; try discriminate.
      rewrite <- trim_nil, T. discriminate.
    + intros (imageUrl & userPrompt & key & -> & N & K & S).
      destruct imageUrl; [contradiction|]. cbn. rewrite K. cbn.
      rewrite <- trim_nil in S. destruct (trim key); [contradiction|].
      cbn. discriminate.
  - intros call.
    destruct body as [[[[|c imageUrl]|] userPrompt]|]; cbn; try discriminate.
    destruct (OPENROUTER_API_KEY env) as [key|]; cbn; [|discriminate].
    destruct (trim key) eqn:T; cbn; [discriminate|].
    intros [= <-]. exists userPrompt, key. cbn. rewrite T.
    repeat split.
Qed.

Lemma describe_classified (missing context : jsstring)
    (payload : VisionPayload) :
  missing <> [] ->
  let answer := describe parse missing context payload in
  (exists text,
     text <> []
     /\ answer
        = mkImageAnswer 200
            (ImageDescribed
               match parse text with
               | Some parsed => parsed
               | None => fallbackDescription text context
               end))
  \/ (exists error,
        image_body answer = ImageFailure error
        /\ error <> []
        /\ image_status answer = 500).
Proof.
  intro N. cbv zeta. unfold describe.
  destruct payload as [|[[|c text]|]]; cbn [present negb is_empty];
    try (right; eexists; split; [reflexivity|]; split;
         [assumption || discriminate | reflexivity]).
  left. exists (c :: text). split; [discriminate|].
  now destruct (parse (c :: text)).
Qed.

Lemma image_route_classified (body : option ImageRequestBody) :
  let answer := snd (imageRoute parse env body upstream) in
  (exists text,
     text <> []
     /\ answer
        = mkImageAnswer 200
            (ImageDescribed
               match parse text with
               | Some parsed => parsed
               | None =>
                   fallbackDescription text
                     (lit "Image description from vision model")
               end))
  \/ (exists error,
        image_body answer = ImageFailure error
        /\ error <> []
        /\ (image_status answer = 400 \/ image_status answer = 500)).
Proof.
  cbv zeta. unfold imageRoute.
  destruct body as [body|]; cbn [snd];
    [|right; eexists; split; [reflexivity|]; split; [discriminate|now right]].
  destruct (negb (present (req_imageUrl body))); cbn [snd];
    [right; eexists; split; [reflexivity|]; split; [discriminate|now left]|].
  destruct (negb (present (option_map trim (OPENROUTER_API_KEY env))));
    cbn [snd];
    [right; eexists; split; [reflexivity|]; split; [discriminate|now right]|].
  destruct (upstream _) as [message|status errorData payload];
    [right; eexists; split; [reflexivity|]; split; [discriminate|now right]|].
  destruct (negb (ok status));
    [right; eexists; split; [reflexivity|]; split; [discriminate|now right]|].
  destruct (@describe_classified (lit "Failed to get image description")
              (lit "Image description from vision model") payload)
    as [L|(error & E & N & S)]; [discriminate | now left |].
  right. exists error. repeat split; trivial. now right.
Qed.

(** Every answer of the image route is either status 200 with a
    description, or status 400 or 500 with a non-empty error text.  The
    description comes from the text of the vision model, the non-empty
    content of a 2xx answer to the call the route made: it is the value
    that text parses to as JSON or, when it is not JSON, an object that
    holds the text verbatim with empty object and colour lists. *)
Theorem image_route_answers (body : option ImageRequestBody) :
  let answer := snd (imageRoute parse env body upstream) in
  (exists text call status errorData,
     fst (imageRoute parse env body upstream) = Some call
     /\ upstream call
        = VisionResponded status errorData (VisionContent (Some text))
     /\ ok status = true
     /\ text <> []
     /\ answer
        = mkImageAnswer 200
            (ImageDescribed
               match parse text with
               | Some parsed => parsed
               | None =>
                   JObject
                     [ (lit "description", JString text);
                       (lit "objects", JArray []);
                       (lit "colors", JArray []);
                       (lit "context",
                        JString (lit "Image description from vision model")) ]
               end))
  \/ (exists error,
        image_body answer = ImageFailure error
        /\ error <> []
        /\ (image_status answer = 400 \/ image_status answer = 500)).
Proof.
  cbv zeta. unfold imageRoute.
  destruct body as [body|]; cbn [snd fst];
    [|right; eexists; split; [reflexivity|]; split; [discriminate|now right]].
  destruct (negb (present (req_imageUrl body))); cbn [snd fst];
    [right; eexists; split; [reflexivity|]; split; [discriminate|now left]|].
  destruct (negb (present (option_map trim (OPENROUTER_API_KEY env))));
    cbn [snd fst];
    [right; eexists; split; [reflexivity|]; split; [discriminate|now right]|].
  destruct (upstream _) as [message|status errorData payload] eqn:U;
    [right; eexists; split; [reflexivity|]; split; [discriminate|now right]|].
  destruct (ok status) eqn:O; cbn [negb];
    [|right; eexists; split; [reflexivity|]; split; [discriminate|now right]].
  unfold describe.
  destruct payload as [|[[|c text]|]]; cbn [present negb is_empty];
    try (right; eexists; split; [reflexivity|]; split;
         [discriminate | now right]).
  left. exists (c :: text). eexists. exists status, errorData.
  split; [reflexivity|]. split; [exact U|]. split; [exact O|].
  split; [discriminate|]. now destruct (parse (c :: text)).
Qed.

End ImageRouteFacts.

(** ** The image route and the component together *)

Section ImageEndToEnd.

Local Open Scope Z_scope.

Variables (parse : jsstring -> option Json) (stringify : Json -> jsstring).
Variables (env : Env) (upstream : VisionCall -> VisionUpstream).
Variables (s : State) (file : File) (random36 dataUrl : jsstring).

Hypothesis idle : isLoading s = false.
Hypothesis image_type : startsWith (file_type file) (lit "image/") = true.
Hypothesis small : file_size file <= 10 * 1024 * 1024.
Hypothesis fresh :
  ~ In (Some (substring_from 7 random36)) (map id (uploadedImages s)).

(** Whatever the image route answers to the request of an upload reaches
    the attachment: a failure removes it again and shows exactly the
    route's error text; a success completes it with the serialized
    description, which is never missing. *)
Theorem image_answer_reaches_user (body : option ImageRequestBody) :
  let answer := snd (imageRoute parse env body upstream) in
  let n := List.length (uploads s) in
  let settled :=
    next
      (next (next s (FileChosen file random36))
         (UploadResumed n (FileLoaded dataUrl)))
      (UploadResumed n (ImageReplied (imageReplyOf stringify answer))) in
  match image_body answer with
  | ImageFailure text =>
      uploadedImages settled = uploadedImages s /\ error settled = Some text
  | ImageDescribed description =>
      uploadedImages settled
      = uploadedImages s
          ++ [mkImageData (Some (substring_from 7 random36)) dataUrl
                (Some (stringify description)) (Some true) (Some 100)
                (Some (lit "Complete")) (Some false)]
  end.
Proof.
  cbv zeta.
  destruct (image_route_classified parse env upstream body)
    as [(text & N & E)|(error & E & N & S)].
  - rewrite E. cbn [image_body imageReplyOf image_status ok Nat.leb andb].
    exact (proj1 (@upload_completes_state s file random36 dataUrl idle
                    image_type small fresh (Some (stringify _)))).
  - rewrite E. unfold imageReplyOf. rewrite E.
    assert (O : ok (image_status (snd (imageRoute parse env body upstream)))
                = false) by (destruct S as [-> | ->]; reflexivity).
    rewrite O.
    exact (@upload_refused_state s file random36 dataUrl idle image_type
             small fresh error (image_status _) N).
Qed.

End ImageEndToEnd.

(** ** The route that tries several models *)

Section SeveralModels.

Variables (call : jsstring -> VisionCall)
          (upstream : VisionCall -> VisionUpstream).

Lemma tryModels_failing (models : list jsstring) :
  forall state,
    Forall (fun model => attemptFails (upstream (call model)) = true) models ->
    tryModels call upstream models state
    = mkSearch (visionModel state) (keptError call upstream models (lastError state))
        (finalResponse state) (calls state ++ map call models).
Proof.
  induction models as [|model rest IH]; intros state H.
  - cbn. rewrite app_nil_r. now destruct state.
  - inversion H as [|? ? Hm Hr]; subst. cbn [tryModels].
    unfold keptError. cbn [fold_left map].
    destruct (upstream (call model)) as [message|status errorData payload]
      eqn:U.
    + rewrite (IH _ Hr). cbn. unfold keptError. now rewrite <- app_assoc.
    + cbn in Hm. apply negb_true_iff in Hm. rewrite Hm.
      rewrite (IH _ Hr). cbn. unfold keptError. now rewrite <- app_assoc.
Qed.

(** The first model that answers with a success status wins: the models
    before it are each called once, in list order, the models after it are
    never called, and its response is the one that is described. *)
Theorem first_working_model_wins (before after : list jsstring)
    (model errorData : jsstring) (status : nat) (payload : VisionPayload)
    (state : Search) :
  Forall (fun m => attemptFails (upstream (call m)) = true) before ->
  upstream (call model) = VisionResponded status errorData payload ->
  ok status = true ->
  tryModels call upstream (before ++ model :: after) state
  = mkSearch model (keptError call upstream before (lastError state)) (Some payload)
      (calls state ++ map call before ++ [call model]).
Proof.
  revert state. induction before as [|m rest IH]; intros state H U O.
  - cbn. now rewrite U, O.
  - inversion H as [|? ? Hm Hr]; subst. cbn [app tryModels].
    destruct (upstream (call m)) as [message|st e p] eqn:Um.
    + rewrite (IH _ Hr U O). cbn. unfold keptError. cbn [fold_left].
      rewrite Um. now rewrite <- app_assoc.
    + cbn in Hm. apply negb_true_iff in Hm. rewrite Hm.
      rewrite (IH _ Hr U O). cbn. unfold keptError. cbn [fold_left].
      rewrite Um. now rewrite <- app_assoc.
Qed.

End SeveralModels.

Section SeveralModelsRoute.

Variables (parse : jsstring -> option Json) (env : Env)
          (upstream : VisionCall -> VisionUpstream).
Variables (imageUrl key : jsstring) (userPrompt : option jsstring).

Hypothesis has_image : imageUrl <> [].
Hypothesis has_key : OPENROUTER_API_KEY env = Some key.
Hypothesis key_not_blank : ~ Forall (fun c => is_space c = true) key.

Let call (model : jsstring) : VisionCall :=
  visionCall env (trim key) (lit "AI Image Processor") model imageUrl.

(** When every model fails, each of the six is called once, in list order,
    and the answer is status 500 with the failure of the last model of the
    list as the reported last error. *)
Theorem all_models_failing_reports_last :
  (forall model,
     In model visionModels -> attemptFails (upstream (call model)) = true) ->
  imageRouteSeveral parse env
    (Some (mkImageRequestBody (Some imageUrl) userPrompt)) upstream
  = (map call visionModels,
     mkImageAnswer 500
       (ImageFailure
          (lit "All Nvidia vision models failed. Last error: "
             ++ failureText (lit "moonshotai/kimi-vl-a3b-thinking:free")
                  (upstream
                     (call (lit "moonshotai/kimi-vl-a3b-thinking:free")))))).
Proof.
  intro H. unfold imageRouteSeveral.
  cbn [req_imageUrl present]. destruct imageUrl as [|c u] eqn:I;
    [contradiction|]. cbn [is_empty negb].
  rewrite has_key. cbn [option_map present].
  rewrite <- trim_nil in key_not_blank.
  destruct (trim key) as [|k0 k] eqn:T; [contradiction|].
  cbn [is_empty negb].
  rewrite tryModels_failing.
  - reflexivity.
  - apply Forall_forall. intros model Hm.
    specialize (H model Hm). unfold call in H. rewrite ?T in H. exact H.
Qed.

End SeveralModelsRoute.

(** ** Splitting a data URL *)

Section DataUrlFacts.

Lemma some1_longest {R : Type} (p : N -> bool) (l rest : jsstring)
    (k : jsstring -> option R) (r : R) :
  l <> [] ->
  Forall (fun c => p c = true) l ->
  match rest with c :: _ => p c = false | [] => True end ->
  k rest = Some r ->
  some1 p (l ++ rest) k = Some r.
Proof.
  intros Hn Hl Hr Hk. induction l as [|c l IH]; [contradiction|].
  inversion Hl as [|? ? Hc Hl']; subst. cbn. rewrite Hc.
  destruct l as [|c' l].
  - destruct rest as [|x rest]; cbn; [exact Hk|]. cbn in Hr. now rewrite Hr.
  - rewrite IH; [reflexivity | discriminate | exact Hl'].
Qed.

Lemma startsWith_prefix (p rest : jsstring) :
  startsWith (p ++ rest) p = true.
Proof.
  induction p as [|c p IH]; cbn; [now destruct rest|].
  now rewrite N.eqb_refl.
Qed.

Lemma firstn_consumed (l rest : jsstring) :
  firstn (List.length (l ++ rest) - List.length rest) (l ++ rest) = l.
Proof.
  rewrite length_app, Nat.add_sub. rewrite firstn_app, Nat.sub_diag.
  cbn. now rewrite firstn_all, app_nil_r.
Qed.

(** The split inverts the way a data URL is written: from "data:", a media
    type without a semicolon, ";base64," and a payload on one line, it
    returns that media type and that payload.  A URL that does not start
    with "data:" is passed on whole, as image/jpeg. *)
Theorem data_url_round_trip (mimeType base64Data : jsstring) :
  (mimeType <> [] ->
   Forall (fun c => notSemicolon c = true) mimeType ->
   base64Data <> [] ->
   Forall (fun c => is_line_terminator c = false) base64Data ->
   splitDataUrl (lit "data:" ++ mimeType ++ lit ";base64," ++ base64Data)
   = (mimeType, base64Data))
  /\ (forall imageUrl,
        startsWith imageUrl (lit "data:") = false ->
        splitDataUrl imageUrl = (lit "image/jpeg", imageUrl)).
Proof.
  split.
  - intros Hm Fm Hb Fb. unfold splitDataUrl.
    rewrite startsWith_prefix.
    assert (S : search re_dataUrl
                  (lit "data:" ++ mimeType ++ lit ";base64," ++ base64Data)
                = Some [(2, base64Data); (1, mimeType)]).
    { unfold search, searchFrom, re_dataUrl.
      cbn [thens pmatch lit map list_ascii_of_string app].
      cbn [N_of_ascii N_of_digits N.add N.mul Pos.add Pos.mul Pos.succ
           N.eqb Pos.eqb].
      assert (G2 : forall caps,
                 some1 dot base64Data
                   (fun t =>
                      match t with
                      | [] =>
                          Some ((2, firstn (List.length base64Data
                                            - List.length t) base64Data)
                                  :: caps)
                      | _ :: _ => None
                      end)
                 = Some ((2, base64Data) :: caps)).
      { intro caps. rewrite <- (app_nil_r base64Data) at 1.
        apply some1_longest; trivial.
        - apply Forall_forall. intros c Hc. unfold dot.
          rewrite Forall_forall in Fb. now rewrite (Fb c Hc).
        - cbn. now rewrite Nat.sub_0_r, firstn_all. }
      erewrite some1_longest; [reflexivity | exact Hm | exact Fm | reflexivity |].
      cbn [N.eqb Pos.eqb].
      rewrite firstn_consumed.
      apply G2. }
    now rewrite S.
  - intros imageUrl H. unfold splitDataUrl. now rewrite H.
Qed.

Lemma data_url_round_trip_witness :
  splitDataUrl (lit "data:" ++ lit "image/png" ++ lit ";base64," ++ lit "iVBORw0KGgo=")
  = (lit "image/png", lit "iVBORw0KGgo=").
Proof.
  refine (proj1 (data_url_round_trip (lit "image/png") (lit "iVBORw0KGgo="))
            _ _ _ _).
  - discriminate.
  - repeat constructor.
  - discriminate.
  - repeat constructor.
Defined.

End DataUrlFacts.

(** ** Examples for the routes *)

Section RouteExamples.

Local Open Scope Z_scope.

Lemma submission_passes_route_validation_witness :
  chat_body
    (snd
       (chatRoute Cases.env1
          (Some
             (chatBodyOf
                (finalContext (messages Scenario.ready)
                   (internalSummary Scenario.ready)
                   (trim (input Scenario.ready))
                   (uploadedImages Scenario.ready))
                (selectedModel Scenario.ready)))
          Cases.limited))
  <> ChatFailure (lit "Messages array is required and cannot be empty").
Proof.
  exact (proj1 (proj2
           (@submission_passes_route_validation Cases.env1 Cases.limited
              Scenario.ready eq_refl))).
Defined.

Lemma route_answer_reaches_user_witness :
  (exists reply,
     chatReplyOf
       (snd
          (chatRoute Cases.env1
             (Some
                (chatBodyOf
                   (finalContext (messages Scenario.ready)
                      (internalSummary Scenario.ready)
                      (trim (input Scenario.ready))
                      (uploadedImages Scenario.ready))
                   (selectedModel Scenario.ready)))
             Cases.answering))
     = Some reply
     /\ messages
          (next (run (next Scenario.ready FormSubmitted) [])
             (ChatReplied reply))
        = messages Scenario.ready
            ++ [analysisMsg (uploadedImages Scenario.ready)]
            ++ [ userMessageForDisplay (trim (input Scenario.ready))
                   (uploadedImages Scenario.ready);
                 mkMessage assistant (lit "A red car.") None ])
  /\ (exists reply,
        chatReplyOf
          (snd
             (chatRoute Cases.env1
                (Some
                   (chatBodyOf
                      (finalContext (messages Scenario.ready)
                         (internalSummary Scenario.ready)
                         (trim (input Scenario.ready))
                         (uploadedImages Scenario.ready))
                      (selectedModel Scenario.ready)))
                Cases.limited))
        = Some reply
        /\ error
             (next (run (next Scenario.ready FormSubmitted) [])
                (ChatReplied reply))
           = Some (lit "OpenRouter API error: " ++ number_to_string 429
                     ++ lit " " ++ lit "Too Many Requests")).
Proof.
  split.
  - destruct (@route_answer_reaches_user Cases.env1 Cases.answering
                Scenario.ready eq_refl [] eq_refl) as (reply & H & _ & Hm).
    exists reply. split; [exact H|]. exact (proj2 Hm).
  - destruct (@route_answer_reaches_user Cases.env1 Cases.limited
                Scenario.ready eq_refl [] eq_refl) as (reply & H & _ & Hm).
    exists reply. split; [exact H|]. exact (proj1 Hm).
Defined.

Lemma image_answer_reaches_user_witness :
  match
    image_body
      (snd
         (imageRoute Cases.noJson Cases.env1
            (Some (mkImageRequestBody (Some Cases.pngUrl) None))
            Cases.allBusy))
  with
  | ImageFailure text =>
      uploadedImages
        (next
           (next (next initial (FileChosen Scenario.photo Cases.draw1))
              (UploadResumed (List.length (uploads initial))
                 (FileLoaded Cases.pngUrl)))
           (UploadResumed (List.length (uploads initial))
              (ImageReplied
                 (imageReplyOf Cases.flat
                    (snd
                       (imageRoute Cases.noJson Cases.env1
                          (Some (mkImageRequestBody (Some Cases.pngUrl) None))
                          Cases.allBusy))))))
      = uploadedImages initial
      /\ error
           (next
              (next (next initial (FileChosen Scenario.photo Cases.draw1))
                 (UploadResumed (List.length (uploads initial))
                    (FileLoaded Cases.pngUrl)))
              (UploadResumed (List.length (uploads initial))
                 (ImageReplied
                    (imageReplyOf Cases.flat
                       (snd
                          (imageRoute Cases.noJson Cases.env1
                             (Some
                                (mkImageRequestBody (Some Cases.pngUrl) None))
                             Cases.allBusy))))))
         = Some text
  | ImageDescribed description =>
      uploadedImages
        (next
           (next (next initial (FileChosen Scenario.photo Cases.draw1))
              (UploadResumed (List.length (uploads initial))
                 (FileLoaded Cases.pngUrl)))
           (UploadResumed (List.length (uploads initial))
              (ImageReplied
                 (imageReplyOf Cases.flat
                    (snd
                       (imageRoute Cases.noJson Cases.env1
                          (Some (mkImageRequestBody (Some Cases.pngUrl) None))
                          Cases.allBusy))))))
      = uploadedImages initial
          ++ [mkImageData (Some (substring_from 7 Cases.draw1)) Cases.pngUrl
                (Some (Cases.flat description)) (Some true) (Some 100)
                (Some (lit "Complete")) (Some false)]
  end.
Proof.
  exact (@image_answer_reaches_user Cases.noJson Cases.flat Cases.env1
           Cases.allBusy initial Scenario.photo Cases.draw1 Cases.pngUrl
           eq_refl eq_refl ltac:(cbv; discriminate) ltac:(intros [])
           (Some (mkImageRequestBody (Some Cases.pngUrl) None))).
Defined.

Lemma first_working_model_wins_witness :
  tryModels Cases.severalCall Cases.secondWorks
    ([lit "google/gemini-2.0-flash-exp:free"]
       ++ lit "google/gemma-3-27b-it:free"
       :: [ lit "google/gemma-3-12b-it:free";
            lit "nvidia/nemotron-nano-12b-v2-vl:free";
            lit "qwen/qwen2.5-vl-72b-instruct:free";
            lit "moonshotai/kimi-vl-a3b-thinking:free" ])
    (mkSearch (lit "google/gemini-2.0-flash-exp:free") [] None [])
  = mkSearch (lit "google/gemma-3-27b-it:free")
      (keptError Cases.severalCall Cases.secondWorks
         [lit "google/gemini-2.0-flash-exp:free"]
         (lastError
            (mkSearch (lit "google/gemini-2.0-flash-exp:free") [] None [])))
      (Some (VisionContent (Some (lit "a red car"))))
      (calls (mkSearch (lit "google/gemini-2.0-flash-exp:free") [] None [])
         ++ map Cases.severalCall [lit "google/gemini-2.0-flash-exp:free"]
         ++ [Cases.severalCall (lit "google/gemma-3-27b-it:free")]).
Proof.
  exact (@first_working_model_wins Cases.severalCall Cases.secondWorks
           [lit "google/gemini-2.0-flash-exp:free"]
           [ lit "google/gemma-3-12b-it:free";
             lit "nvidia/nemotron-nano-12b-v2-vl:free";
             lit "qwen/qwen2.5-vl-72b-instruct:free";
             lit "moonshotai/kimi-vl-a3b-thinking:free" ]
           (lit "google/gemma-3-27b-it:free") [] 200
           (VisionContent (Some (lit "a red car")))
           (mkSearch (lit "google/gemini-2.0-flash-exp:free") [] None [])
           ltac:(repeat constructor) eq_refl eq_refl).
Defined.

Lemma all_models_failing_reports_last_witness :
  fst
    (imageRouteSeveral Cases.noJson Cases.env1
       (Some (mkImageRequestBody (Some Cases.pngUrl) None)) Cases.allBusy)
  = map
      (fun model =>
         visionCall Cases.env1 (trim (lit "sk-or-v1-0a1b2c"))
           (lit "AI Image Processor") model Cases.pngUrl)
      visionModels.
Proof.
  exact (f_equal fst
           (@all_models_failing_reports_last Cases.noJson Cases.env1
              Cases.allBusy Cases.pngUrl (lit "sk-or-v1-0a1b2c") None
              ltac:(discriminate) eq_refl
              ltac:(intro H; inversion H; discriminate)
              (fun _ _ => eq_refl))).
Defined.

End RouteExamples.

(** ** Clearing and removing *)

Section ClearFacts.

Local Open Scope Z_scope.

Variables (s : State) (file : File) (random36 dataUrl : jsstring).

Hypothesis idle : isLoading s = false.
Hypothesis image_type : startsWith (file_type file) (lit "image/") = true.
Hypothesis small : file_size file <= 10 * 1024 * 1024.
Hypothesis fresh :
  ~ In (Some (substring_from 7 random36)) (map id (uploadedImages s)).

(** Clearing the chat does not cancel an upload that is under way.  The
    attachment is gone and never comes back, whatever happens short of a
    new file being chosen; yet the read file is still sent to the vision
    route, and a failure of that request still puts its error text on
    display after the clearing. *)
Theorem clear_does_not_cancel_upload (after : list Event)
    (text : jsstring) (http_status : nat) :
  forallb noUpload after = true ->
  text <> [] ->
  let n := List.length (uploads s) in
  let cleared := next (next s (FileChosen file random36)) ClearClicked in
  let sent := next cleared (UploadResumed n (FileLoaded dataUrl)) in
  uploadedImages cleared = []
  /\ error cleared = None
  /\ uploadedImages (run cleared after) = []
  /\ snd (step cleared (UploadResumed n (FileLoaded dataUrl)))
     = [FetchImage dataUrl (trim (input s))]
  /\ error
       (next sent
          (UploadResumed n (ImageReplied (ImageError (Some text) http_status))))
     = Some text.
Proof.
  intros Ha Nt. cbv zeta.
  destruct (@chosen_state s file random36 idle image_type small fresh)
    as (Hu & Ht & He & Hl & Hi).
  set (chosen := next s (FileChosen file random36)) in *.
  assert (C : next chosen ClearClicked = clearChat chosen)
    by (unfold next, step; now rewrite Hl).
  rewrite C.
  assert (Cu : uploadedImages (clearChat chosen) = []) by reflexivity.
  split; [exact Cu|]. split; [reflexivity|].
  split; [now apply staging_run|].
  assert (T : nth_error (uploads (clearChat chosen)) (List.length (uploads s))
              = Some (mkUploadTask (substring_from 7 random36) (input s)
                        Reading)).
  { change (uploads (clearChat chosen)) with (uploads chosen).
    rewrite Ht. apply nth_error_last. }
  split.
  - unfold step, resumeUpload. rewrite T. reflexivity.
  - set (sent := next (clearChat chosen) _).
    assert (Us : uploads sent
                 = uploads s
                     ++ [mkUploadTask (substring_from 7 random36) (input s)
                           Analyzing]).
    { subst sent. unfold next, step, resumeUpload. rewrite T.
      cbn -[updateImages setPhaseAt clearChat].
      change (uploads (clearChat chosen)) with (uploads chosen).
      rewrite Ht. apply setPhaseAt_last. }
    clearbody sent. unfold next, step, resumeUpload.
    rewrite Us, nth_error_last. cbn -[filter].
    destruct text; [contradiction|]. reflexivity.
Qed.

End ClearFacts.

Section RemoveFacts.

Lemma removeAt_spec {A : Type} (l : list A) :
  forall index, removeAt index l = firstn index l ++ skipn (S index) l.
Proof.
  induction l as [|x l IH]; intros [|i]; cbn; try reflexivity.
  now rewrite IH.
Qed.

(** Removing an attachment takes out exactly the one at the given position
    and keeps the others in order; the log, the text field and the error
    are untouched.  For a position beyond the end, or an attachment that is
    still uploading, nothing changes. *)
Theorem remove_takes_exactly_one (s : State) (index : nat) :
  (forall img,
     nth_error (uploadedImages s) index = Some img ->
     truthy (isUploading img) = false ->
     let s' := next s (RemoveClicked index) in
     uploadedImages s'
     = firstn index (uploadedImages s) ++ skipn (S index) (uploadedImages s)
     /\ List.length (uploadedImages s')
        = pred (List.length (uploadedImages s))
     /\ messages s' = messages s /\ input s' = input s /\ error s' = error s)
  /\ (List.length (uploadedImages s) <= index ->
      next s (RemoveClicked index) = s)
  /\ (forall img,
        nth_error (uploadedImages s) index = Some img ->
        truthy (isUploading img) = true ->
        next s (RemoveClicked index) = s).
Proof.
  split; [|split].
  - intros img H U. cbv zeta. unfold next, step. rewrite H, U. cbn.
    rewrite removeAt_spec. repeat split.
    assert (L : index < List.length (uploadedImages s))
      by (apply nth_error_Some; congruence).
    rewrite length_app, length_firstn, length_skipn. lia.
  - intro H. unfold next, step.
    apply nth_error_None in H. now rewrite H.
  - intros img H U. unfold next, step. now rewrite H, U.
Qed.

Lemma remove_takes_exactly_one_witness :
  uploadedImages (next Scenario.ready (RemoveClicked 0))
  = firstn 0 (uploadedImages Scenario.ready)
      ++ skipn 1 (uploadedImages Scenario.ready).
Proof.
  destruct (remove_takes_exactly_one Scenario.ready 0) as (H & _).
  edestruct H as (E & _); [reflexivity | reflexivity | exact E].
Defined.

End RemoveFacts.

Section ClearExamples.

Local Open Scope Z_scope.

Lemma clear_does_not_cancel_upload_witness :
  uploadedImages
    (next (next initial (FileChosen Scenario.photo Cases.draw1)) ClearClicked)
  = []
  /\ error
       (next (next initial (FileChosen Scenario.photo Cases.draw1))
          ClearClicked)
     = None.
Proof.
  destruct (@clear_does_not_cancel_upload initial Scenario.photo Cases.draw1
              Cases.pngUrl eq_refl eq_refl ltac:(cbv; discriminate)
              ltac:(intros []) [FormSubmitted] (lit "busy") 503%nat
              eq_refl ltac:(discriminate))
    as (H1 & H2 & _).
  split; [exact H1 | exact H2].
Defined.

End ClearExamples.

(** ** [/api/test] *)

Section TestRouteFacts.

(** The diagnostic route shows of the API key only its first twelve
    characters: two environments whose keys agree on them get the same
    answer, and the text shown is never longer than fifteen characters.  A
    key of at most twelve characters is shown in full, and without a key
    (or with an empty one) no prefix is shown at all. *)
Theorem test_route_shows_key_prefix_only (baseUrl nodeEnv : option jsstring) :
  (forall key key',
     firstn 12 key = firstn 12 key' ->
     testRoute (Some key) baseUrl nodeEnv
     = testRoute (Some key') baseUrl nodeEnv)
  /\ (forall key shown,
        apiKeyPrefix (testRoute key baseUrl nodeEnv) = Some shown ->
        List.length shown <= 15)
  /\ (forall key,
        key <> [] -> List.length key <= 12 ->
        apiKeyPrefix (testRoute (Some key) baseUrl nodeEnv)
        = Some (key ++ lit "..."))
  /\ apiKeyPrefix (testRoute None baseUrl nodeEnv) = None
  /\ apiKeyPrefix (testRoute (Some []) baseUrl nodeEnv) = None.
Proof.
  split; [|split; [|split; [|split; reflexivity]]].
  - intros key key' H. unfold testRoute. cbn [present].
    assert (E : is_empty key = is_empty key').
    { destruct key, key'; cbn in *; try reflexivity; discriminate H. }
    now rewrite E, H.
  - intros key shown. unfold testRoute. cbn [apiKeyPrefix].
    destruct (present key); [|discriminate].
    remember (firstn 12 _ ++ lit "...") as text eqn:T. intro H.
    assert (E : shown = text) by congruence. subst shown text.
    rewrite length_app, length_firstn. cbn [List.length lit map
      list_ascii_of_string]. lia.
  - intros key N L. unfold testRoute. cbn [present apiKeyPrefix].
    destruct key; [contradiction|]. cbn [is_empty negb].
    now rewrite firstn_all2.
Qed.

Lemma test_route_shows_key_prefix_only_witness :
  apiKeyPrefix (testRoute (Some (lit "sk-or")) None None)
  = Some (lit "sk-or" ++ lit "...").
Proof.
  exact (proj1 (proj2 (proj2 (test_route_shows_key_prefix_only None None)))
           (lit "sk-or") ltac:(discriminate) ltac:(cbv; repeat constructor)).
Defined.

End TestRouteFacts.
